(** * The offline buffer and the sync worker of the fleet tracker

    A shallow embedding of [src/modules/data_buffer.py] (class [DataBuffer]),
    of the queue worker of [src/modules/firebase_sync.py] (class
    [FirebaseSync]) and of [FleetTracker.handle_gps_update] of [src/main.py],
    followed by the properties of the buffering and sync engine.

    The SQLite table [gps_buffer] is a list of rows in rowid order and
    the Python dictionaries are finite maps from strings to values.  A
    [try] block that can raise is a computation in an error monad, and
    the method around it turns a raised exception into the value its
    [except] branch returns.  Everything a method reads from outside
    (the clock, the answer of the upload, the outcome of VACUUM, the
    size of the database file) is an argument.  The state of the buffer
    is what its one connection sees.  A commit that fails is modelled
    for [mark_synced], whose contract speaks of it; the other methods
    are taken with a disk that works. *)

From Stdlib Require Import ZArith List Bool Lia Sorted Permutation.
From Stdlib Require Import Ascii String DecimalString.
From stdpp Require Import gmap strings list fin_maps.

Local Open Scope string_scope.
Local Open Scope list_scope.
Local Open Scope Z_scope.

(** ** Python values and dictionaries *)

(** The values a location dictionary carries.  [VFloat] holds the bit
    pattern of a double (sign, 11 bits of exponent, 52 of fraction).
    [VBytes] is a value SQLite can bind but [json.dumps] rejects. *)
Inductive value :=
| VNone
| VBool (b : bool)
| VInt (n : Z)
| VFloat (bits : Z)
| VStr (s : string)
| VBytes (bs : list Z).

Abbreviation dict := (gmap string value).

(** Exceptions raised inside the [try] blocks. *)
Inductive exn :=
| KeyError (k : string)
| TypeError
| OverflowError
| IntegrityError
| OperationalError.

(** The error monad of a [try] block: [Raised e] leaves the block. *)
Inductive M (A : Type) : Type :=
| Raised (e : exn)
| Ok (a : A).
Arguments Raised {A} e.
Arguments Ok {A} a.

Definition ret {A} (a : A) : M A := Ok a.
Definition raise {A} (e : exn) : M A := Raised e.
Definition bind {A B} (m : M A) (k : A -> M B) : M B :=
  match m with
  | Raised e => Raised e
  | Ok a => k a
  end.

Notation "'do' x <- m ; k" := (bind m (fun x => k))
  (at level 10, x name, m at level 100, k at level 200,
   format "'[v' 'do'  x  <-  m ; '/' k ']'").
Notation "'check' m ; k" := (bind m (fun _ => k))
  (at level 10, m at level 100, k at level 200,
   format "'[v' 'check'  m ; '/' k ']'").

(** The loop [for a in l: out.append(f(a))] inside a [try]. *)
Fixpoint mapM {A B} (f : A -> M B) (l : list A) : M (list B) :=
  match l with
  | [] => ret []
  | a :: l' => do b <- f a; do bs <- mapM f l'; ret (b :: bs)
  end.

(** ** The table *)

(** The compressed column.  [Gz d] stands for the bytes
    [gzip.compress(json.dumps(d).encode())]; the bytes themselves never
    matter to the buffer, only that [gzip.decompress] and [json.loads]
    give [d] back, which holds for the values of [value] that
    [json.dumps] accepts. *)
Inductive blob := Gz (d : dict).

(** One row of [gps_buffer].  [rowid] is the column [id] (an INTEGER
    PRIMARY KEY is the rowid); [timestamp] is the text SQLite's
    CURRENT_TIMESTAMP produced.  A column holds the Python value that
    reading it gives: None for NULL, an int, a float, a str or bytes.
    [priority] and [retry_count] are 64-bit integers; a retry count
    grows by one per failed round and is taken to stay far from 2^63. *)
Record row := {
  rowid : Z;
  timestamp : string;
  device_id : value;
  latitude : value;
  longitude : value;
  speed : value;
  heading : value;
  altitude : value;
  satellites : value;
  hdop : value;
  synced : bool;
  priority : Z;
  compressed_data : option blob;
  retry_count : Z
}.

(** A number as SQLite holds it: an INTEGER or a REAL. *)
Inductive number :=
| Integer (n : Z)
| Real (bits : Z).

(** What the SQLite library does between text and numbers, which the
    embedding leaves open: the text it makes of a REAL that goes into a
    TEXT column, and the number it reads from a text that goes into a
    numeric column ([None] when the text is not a well-formed number,
    an [Integer] when the number is a whole one within 64 bits). *)
Record text_conversions := {
  text_of_real : Z -> string;
  number_of_text : string -> option number
}.

(** The state behind a [DataBuffer], as its connection sees it: the
    table in rowid order, the AUTOINCREMENT counter of [sqlite_sequence]
    (the largest rowid ever given out, which SQLite keeps at or above
    every rowid of the table), the connection's limit on the number of
    [?] parameters of one statement, the text conversions of the
    library behind the connection, and the number of VACUUM runs so
    far. *)
Record DataBuffer := {
  rows : list row;
  seq : Z;
  max_variable_number : Z;
  conversions : text_conversions;
  vacuums : nat
}.

Definition set_rows (st : DataBuffer) (rs : list row) : DataBuffer :=
  {| rows := rs; seq := seq st;
     max_variable_number := max_variable_number st;
     conversions := conversions st; vacuums := vacuums st |}.

(** SQLite integers are 64-bit; [sqlite3] raises OverflowError when it
    binds a Python int outside that range. *)
Definition int64_min : Z := - 2 ^ 63.
Definition int64_max : Z := 2 ^ 63 - 1.

Definition in_int64 (n : Z) : bool := (int64_min <=? n) && (n <=? int64_max).

Definition bind_int (n : Z) : M Z :=
  if in_int64 n then ret n else raise OverflowError.

(** The fields of a double. *)
Definition exponent_field (bits : Z) : Z := Z.land (Z.shiftr bits 52) 2047.
Definition fraction_field (bits : Z) : Z := Z.land bits 4503599627370495.
Definition sign_field (bits : Z) : Z := Z.land (Z.shiftr bits 63) 1.

Definition is_nan (bits : Z) : bool :=
  (exponent_field bits =? 2047) && negb (fraction_field bits =? 0).

(** 0.0 or -0.0 *)
Definition is_zero (bits : Z) : bool :=
  (exponent_field bits =? 0) && (fraction_field bits =? 0).

(** What [sqlite3] binds for a Python value: None as NULL, a bool as
    the integer 1 or 0, an int as an INTEGER when it fits, a float as a
    REAL, except that SQLite takes a NaN for NULL, a str as TEXT and
    bytes as a BLOB. *)
Definition bind_value (v : value) : M value :=
  match v with
  | VBool b => ret (VInt (if b then 1 else 0))
  | VInt n => if in_int64 n then ret v else raise OverflowError
  | VFloat bits => if is_nan bits then ret VNone else ret v
  | _ => ret v
  end.

(** A NOT NULL column rejects NULL, which is what a None and a NaN
    were bound as. *)
Definition not_null (v : value) : M value :=
  match v with
  | VNone => raise IntegrityError
  | _ => ret v
  end.

(** ** Column affinity *)

(** The double nearest to an integer, ties to the even significand:
    the conversion of C that SQLite applies to an INTEGER that goes into
    a REAL column. *)
Definition real_of_int (n : Z) : Z :=
  if n =? 0 then 0
  else
    let a := Z.abs n in
    let e := Z.log2 a in
    let '(m, e) :=
      if e <=? 52 then (Z.shiftl a (52 - e), e)
      else
        let q := Z.shiftr a (e - 52) in
        let rest := Z.land a (Z.ones (e - 52)) in
        let half := Z.shiftl 1 (e - 53) in
        let q := if (half <? rest) || ((rest =? half) && Z.odd q)
                 then q + 1 else q in
        if q =? 9007199254740992 then (4503599627370496, e + 1) else (q, e) in
    (if n <? 0 then 9223372036854775808 else 0)
    + (e + 1023) * 4503599627370496 + (m - 4503599627370496).

(** The integer a REAL stands for, when it has no fractional part and
    lies strictly between the least and the largest 64-bit integer:
    the REALs that an INTEGER column stores as INTEGER. *)
Definition integer_of_real (bits : Z) : option Z :=
  let e := exponent_field bits in
  let f := fraction_field bits in
  if e =? 2047 then None
  else
    let m := if e =? 0 then f else f + 4503599627370496 in
    let k := (if e =? 0 then 1 else e) - 1075 in
    let a := if 0 <=? k then Some (Z.shiftl m k)
             else if Z.land m (Z.ones (- k)) =? 0 then Some (Z.shiftr m (- k))
             else None in
    match a with
    | Some a =>
        let n := if sign_field bits =? 1 then - a else a in
        if (int64_min <? n) && (n <? int64_max) then Some n else None
    | None => None
    end.

(** An INTEGER as decimal text. *)
Definition text_of_int (n : Z) : string := NilZero.string_of_int (Z.to_int n).

Arguments is_nan : simpl never.
Arguments is_zero : simpl never.
Arguments real_of_int : simpl never.
Arguments integer_of_real : simpl never.
Arguments text_of_int : simpl never.

(** A TEXT column ([device_id]) turns a number into its text; NULL,
    TEXT and BLOB stay. *)
Definition text_affinity (lib : text_conversions) (v : value) : value :=
  match v with
  | VInt n => VStr (text_of_int n)
  | VFloat bits => VStr (text_of_real lib bits)
  | _ => v
  end.

(** An INTEGER column ([satellites]) turns a text that reads as a
    number into that number and a REAL without fractional part into an
    INTEGER; everything else stays. *)
Definition integer_affinity (lib : text_conversions) (v : value) : value :=
  match v with
  | VStr s =>
      match number_of_text lib s with
      | Some (Integer n) => VInt n
      | Some (Real bits) => VFloat bits
      | None => v
      end
  | VFloat bits =>
      match integer_of_real bits with
      | Some n => VInt n
      | None => v
      end
  | _ => v
  end.

(** A REAL column ([latitude], [longitude], [speed], [heading],
    [altitude], [hdop]) turns an INTEGER into the nearest double and a
    text that reads as a number into that number as a double.  A REAL
    stays, but for the sign of a zero: SQLite passes a REAL without
    fractional part through an INTEGER, and -0.0 comes back as 0.0. *)
Definition real_affinity (lib : text_conversions) (v : value) : value :=
  match v with
  | VInt n => VFloat (real_of_int n)
  | VStr s =>
      match number_of_text lib s with
      | Some (Integer n) => VFloat (real_of_int n)
      | Some (Real bits) => VFloat bits
      | None => v
      end
  | VFloat bits => VFloat (if is_zero bits then 0 else bits)
  | _ => v
  end.

(** ** insert_location *)

(** [location[k]] and [location.get(k, default)]. *)
Definition getitem (location : dict) (k : string) : M value :=
  match location !! k with
  | Some v => ret v
  | None => raise (KeyError k)
  end.

Definition get (location : dict) (k : string) (default : value) : value :=
  match location !! k with
  | Some v => v
  | None => default
  end.

Definition core_keys : list string :=
  ["latitude"; "longitude"; "speed"; "heading"; "timestamp"].

Definition is_core_key (k : string) : bool :=
  existsb (String.eqb k) core_keys.

(** [{k: v for k, v in location.items() if k not in [...]}] *)
Definition extra_data (location : dict) : dict :=
  filter (fun kv => is_core_key kv.1 = false) location.

(** The interpreter's limit on the decimal digits of an int that is
    turned into text, 4300 unless the interpreter is told otherwise:
    the ints of fewer than 4301 digits lie below [int_text_limit]. *)
Definition int_max_str_digits : Z := 4300.
Definition int_text_limit : Z := Eval vm_compute in 10 ^ int_max_str_digits.
Arguments int_text_limit : simpl never.

(** What [json.dumps] accepts: not bytes (TypeError), and no int of
    more digits than the interpreter turns into text (ValueError). *)
Definition json_serializable_value (v : value) : bool :=
  match v with
  | VBytes _ => false
  | VInt n => Z.abs n <? int_text_limit
  | _ => true
  end.

(** [gzip.compress(json.dumps(d).encode())]: [json.dumps] raises on a
    value it cannot serialize. *)
Definition compress_json (d : dict) : M blob :=
  if forallb (fun kv => json_serializable_value kv.2) (map_to_list d)
  then ret (Gz d) else raise TypeError.

(** [json.loads(gzip.decompress(b).decode())] *)
Definition decompress_json (b : blob) : dict :=
  match b with Gz d => d end.

(** Python's truth value of a dictionary. *)
Definition dict_truthy (d : dict) : bool := negb (bool_decide (d = ∅)).

(** The body of the [try] block.  [current_timestamp] is the text that
    the column default CURRENT_TIMESTAMP evaluates to.  The ten values
    are bound, the NOT NULL columns checked, and each value stored as
    the affinity of its column makes it. *)
Definition insert_location_body (current_timestamp : string)
    (location : dict) (prio : Z) (st : DataBuffer) : M DataBuffer :=
  let extra := extra_data location in
  do compressed <- (if dict_truthy extra
                    then do b <- compress_json extra; ret (Some b)
                    else ret None);
  let dev := get location "device_id" (VStr "unknown") in
  do lat <- getitem location "latitude";
  do lon <- getitem location "longitude";
  let spd := get location "speed" (VInt 0) in
  let hdg := get location "heading" (VInt 0) in
  let alt := get location "altitude" (VInt 0) in
  let sat := get location "satellites" (VInt 0) in
  let hdp := get location "hdop" (VInt 0) in
  do dev <- bind_value dev;
  do lat <- bind_value lat;
  do lon <- bind_value lon;
  do spd <- bind_value spd;
  do hdg <- bind_value hdg;
  do alt <- bind_value alt;
  do sat <- bind_value sat;
  do hdp <- bind_value hdp;
  do prio <- bind_int prio;
  do dev <- not_null dev;
  do lat <- not_null lat;
  do lon <- not_null lon;
  check (if int64_max <=? seq st then raise OperationalError else ret tt);
  let lib := conversions st in
  let r := {| rowid := seq st + 1;
              timestamp := current_timestamp;
              device_id := text_affinity lib dev;
              latitude := real_affinity lib lat;
              longitude := real_affinity lib lon;
              speed := real_affinity lib spd;
              heading := real_affinity lib hdg;
              altitude := real_affinity lib alt;
              satellites := integer_affinity lib sat;
              hdop := real_affinity lib hdp;
              synced := false;
              priority := prio;
              compressed_data := compressed;
              retry_count := 0 |} in
  ret {| rows := rows st ++ [r];
         seq := seq st + 1;
         max_variable_number := max_variable_number st;
         conversions := conversions st;
         vacuums := vacuums st |}.

(** [insert_location]: [True] after the commit, [False] from the
    [except] branch, which leaves the table as it was. *)
Definition insert_location (current_timestamp : string)
    (location : dict) (prio : Z) (st : DataBuffer) : bool * DataBuffer :=
  match insert_location_body current_timestamp location prio st with
  | Ok st' => (true, st')
  | Raised _ => (false, st)
  end.

(** ** get_unsynced_batch *)

(** [WHERE synced = 0 AND retry_count < 5] *)
Definition unsynced (r : row) : bool :=
  negb (synced r) && (retry_count r <? 5).

(** [ORDER BY priority DESC, timestamp ASC]: [order_by a b] holds when
    [a] may come before [b].  The timestamps are TEXT and compare
    byte by byte. *)
Definition order_by (a b : row) : bool :=
  (priority b <? priority a)
  || ((priority a =? priority b) && String.leb (timestamp a) (timestamp b)).

(** Rows that tie on both keys come out in rowid order, the order in
    which the index [idx_synced] on [(synced, priority DESC, timestamp)]
    lists them: the sort is stable over the table. *)
Fixpoint insert_row (x : row) (l : list row) : list row :=
  match l with
  | [] => [x]
  | y :: l' => if order_by x y then x :: l else y :: insert_row x l'
  end.

Definition sort_rows (l : list row) : list row := foldr insert_row [] l.

(** [LIMIT ?]: a negative limit means no limit in SQLite. *)
Definition sql_limit {A} (n : Z) (l : list A) : list A :=
  if n <? 0 then l else take (Z.to_nat n) l.

(** The rows the SELECT of [get_unsynced_batch] fetches. *)
Definition select_unsynced (batch_size : Z) (st : DataBuffer) : list row :=
  sql_limit batch_size (sort_rows (filter (fun r => unsynced r = true) (rows st))).

(** The body of the [for row in rows] loop: the dictionary of the core
    columns, then [data.update(extra)] with the decompressed extras,
    whose values win on a common key. *)
Definition row_to_dict (r : row) : dict :=
  let data : dict :=
    <["id" := VInt (rowid r)]>
    (<["timestamp" := VStr (timestamp r)]>
    (<["device_id" := device_id r]>
    (<["latitude" := latitude r]>
    (<["longitude" := longitude r]>
    (<["speed" := speed r]>
    (<["heading" := heading r]>
    (<["altitude" := altitude r]>
    (<["satellites" := satellites r]>
    (<["hdop" := hdop r]> ∅))))))))) in
  match compressed_data r with
  | Some b => decompress_json b ∪ data
  | None => data
  end.

Definition get_unsynced_batch_body (batch_size : Z) (st : DataBuffer)
  : M (list dict) :=
  do n <- bind_int batch_size;
  ret (map row_to_dict (select_unsynced n st)).

(** [get_unsynced_batch]: the list of dictionaries, [[]] from the
    [except] branch. *)
Definition get_unsynced_batch (batch_size : Z) (st : DataBuffer) : list dict :=
  match get_unsynced_batch_body batch_size st with
  | Ok results => results
  | Raised _ => []
  end.

(** ** mark_synced and increment_retry *)

(** Preparing and binding [WHERE id IN (?, ..., ?)] with [ids]: SQLite
    refuses a statement with more parameters than the connection
    allows, and [sqlite3] refuses an integer outside 64 bits.  Both
    happen before any row is touched. *)
Definition bind_ids (st : DataBuffer) (ids : list Z) : M unit :=
  check (if max_variable_number st <? Z.of_nat (length ids)
         then raise OperationalError else ret tt);
  check (mapM bind_int ids);
  ret tt.

(** [id IN (...)] *)
Definition id_in (ids : list Z) (r : row) : bool :=
  existsb (Z.eqb (rowid r)) ids.

Definition set_synced (r : row) : row :=
  {| rowid := rowid r; timestamp := timestamp r; device_id := device_id r;
     latitude := latitude r; longitude := longitude r; speed := speed r;
     heading := heading r; altitude := altitude r;
     satellites := satellites r; hdop := hdop r;
     synced := true;
     priority := priority r; compressed_data := compressed_data r;
     retry_count := retry_count r |}.

Definition add_retry (r : row) : row :=
  {| rowid := rowid r; timestamp := timestamp r; device_id := device_id r;
     latitude := latitude r; longitude := longitude r; speed := speed r;
     heading := heading r; altitude := altitude r;
     satellites := satellites r; hdop := hdop r;
     synced := synced r;
     priority := priority r; compressed_data := compressed_data r;
     retry_count := retry_count r + 1 |}.

(** [UPDATE gps_buffer SET ... WHERE id IN (...)] *)
Definition update_where (ids : list Z) (f : row -> row) (st : DataBuffer)
  : DataBuffer :=
  set_rows st (map (fun r => if id_in ids r then f r else r) (rows st)).

(** The [cursor.execute] of [mark_synced]. *)
Definition mark_synced_body (ids : list Z) (st : DataBuffer) : M DataBuffer :=
  check (bind_ids st ids);
  ret (update_where ids set_synced st).

(** [mark_synced]: [commit_ok] tells whether [self.conn.commit()]
    succeeds.  When it raises, as it does when the database file is
    locked, the [except] branch returns [False] without a rollback: the
    transaction of the UPDATE stays open on the one connection that
    every method uses, so every later statement sees the rows as synced,
    and the next commit that succeeds writes them. *)
Definition mark_synced (commit_ok : bool) (ids : list Z) (st : DataBuffer)
  : bool * DataBuffer :=
  match mark_synced_body ids st with
  | Ok st' => if commit_ok then (true, st') else (false, st')
  | Raised _ => (false, st)
  end.

Definition increment_retry_body (ids : list Z) (st : DataBuffer)
  : M DataBuffer :=
  check (bind_ids st ids);
  ret (update_where ids add_retry st).

Definition increment_retry (ids : list Z) (st : DataBuffer)
  : bool * DataBuffer :=
  match increment_retry_body ids st with
  | Ok st' => (true, st')
  | Raised _ => (false, st)
  end.

(** ** Dates *)

(** A naive [datetime.datetime]. *)
Record datetime := {
  year : Z;
  month : Z;
  day : Z;
  hour : Z;
  minute : Z;
  second : Z;
  microsecond : Z
}.

(** Day number of a civil date and back (proleptic Gregorian calendar,
    day 0 is 1970-01-01), the arithmetic behind
    [datetime - timedelta(days=n)]. *)
Definition days_from_civil (y m d : Z) : Z :=
  let y' := if m <=? 2 then y - 1 else y in
  let era := y' / 400 in
  let yoe := y' - era * 400 in
  let doy := (153 * (if 2 <? m then m - 3 else m + 9) + 2) / 5 + d - 1 in
  let doe := yoe * 365 + yoe / 4 - yoe / 100 + doy in
  era * 146097 + doe - 719468.

Definition civil_from_days (z : Z) : Z * Z * Z :=
  let z := z + 719468 in
  let era := z / 146097 in
  let doe := z - era * 146097 in
  let yoe := (doe - doe / 1460 + doe / 36524 - doe / 146096) / 365 in
  let y := yoe + era * 400 in
  let doy := doe - (365 * yoe + yoe / 4 - yoe / 100) in
  let mp := (5 * doy + 2) / 153 in
  let d := doy - (153 * mp + 2) / 5 + 1 in
  let m := if mp <? 10 then mp + 3 else mp - 9 in
  (if m <=? 2 then y + 1 else y, m, d).

(** [dt - timedelta(days=days)]: OverflowError when the timedelta or
    the resulting date is out of range. *)
Definition minus_days (dt : datetime) (days : Z) : M datetime :=
  if (days <? -999999999) || (999999999 <? days) then raise OverflowError
  else
    let '(y, m, d) :=
      civil_from_days (days_from_civil (year dt) (month dt) (day dt) - days) in
    if (y <? 1) || (9999 <? y) then raise OverflowError
    else ret {| year := y; month := m; day := d;
                hour := hour dt; minute := minute dt; second := second dt;
                microsecond := microsecond dt |}.

Definition digit (n : Z) : ascii := ascii_of_N (48 + Z.to_N (n mod 10)).

Definition pad2 (n : Z) : string :=
  String (digit (n / 10)) (String (digit n) "").

Definition pad4 (n : Z) : string := (pad2 (n / 100) ++ pad2 n)%string.

Definition pad6 (n : Z) : string := (pad4 (n / 100) ++ pad2 n)%string.

Definition date_text (dt : datetime) : string :=
  (pad4 (year dt) ++ "-" ++ pad2 (month dt) ++ "-" ++ pad2 (day dt))%string.

Definition time_text (dt : datetime) : string :=
  (pad2 (hour dt) ++ ":" ++ pad2 (minute dt) ++ ":" ++ pad2 (second dt))%string.

(** [dt.isoformat()]: [YYYY-MM-DDTHH:MM:SS], followed by [.ffffff] when
    the microseconds are not zero. *)
Definition fraction_text (dt : datetime) : string :=
  if microsecond dt =? 0 then ""
  else String.append "." (pad6 (microsecond dt)).

Definition isoformat (dt : datetime) : string :=
  (date_text dt ++ "T" ++ time_text dt ++ fraction_text dt)%string.

(** The text of SQLite's CURRENT_TIMESTAMP at the UTC time [dt]:
    [YYYY-MM-DD HH:MM:SS]. *)
Definition sqlite_timestamp (dt : datetime) : string :=
  (date_text dt ++ " " ++ time_text dt)%string.

(** ** cleanup_old_data *)

(** [WHERE synced = 1 AND timestamp < ?], a comparison of TEXT. *)
Definition old_synced (cutoff : string) (r : row) : bool :=
  synced r && String.ltb (timestamp r) cutoff.

Definition run_vacuum (st : DataBuffer) : DataBuffer :=
  {| rows := rows st; seq := seq st;
     max_variable_number := max_variable_number st;
     conversions := conversions st;
     vacuums := S (vacuums st) |}.

(** [cleanup_old_data]: [now] is what [datetime.now()] returns, and
    [vacuum_ok] tells whether the VACUUM statement succeeds.  The DELETE
    is committed before the VACUUM, so a failing VACUUM reaches the
    [except] branch, which returns 0, with the rows already gone. *)
Definition cleanup_old_data (now : datetime) (days : Z) (vacuum_ok : bool)
    (st : DataBuffer) : Z * DataBuffer :=
  match minus_days now days with
  | Raised _ => (0, st)
  | Ok cutoff_date =>
      let cutoff := isoformat cutoff_date in
      let kept := filter (fun r => old_synced cutoff r = false) (rows st) in
      let deleted := Z.of_nat (length (rows st)) - Z.of_nat (length kept) in
      let st' := set_rows st kept in
      if 0 <? deleted then
        if vacuum_ok then (deleted, run_vacuum st') else (0, st')
      else (deleted, st')
  end.

(** ** get_stats *)

Definition count_rows (p : row -> bool) (st : DataBuffer) : Z :=
  Z.of_nat (length (filter (fun r => p r = true) (rows st))).

(** [get_stats]: [page_count] and [page_size] are the two pragmas. *)
Definition get_stats (page_count page_size : Z) (st : DataBuffer)
  : gmap string Z :=
  let stats : gmap string Z := ∅ in
  let stats := <["total" := count_rows (fun _ => true) st]> stats in
  let stats := <["unsynced" := count_rows (fun r => negb (synced r)) st]> stats in
  let stats := <["failed" := count_rows (fun r => 5 <=? retry_count r) st]> stats in
  let stats := <["size_bytes" := page_count * page_size]> stats in
  stats.

(** ** The operations of the store as one step function *)

Inductive op :=
| Insert (current_timestamp : string) (location : dict) (prio : Z)
| GetUnsyncedBatch (batch_size : Z)
| MarkSynced (commit_ok : bool) (ids : list Z)
| IncrementRetry (ids : list Z)
| Cleanup (now : datetime) (days : Z) (vacuum_ok : bool)
| GetStats (page_count page_size : Z).

Definition step (st : DataBuffer) (o : op) : DataBuffer :=
  match o with
  | Insert ts location prio => (insert_location ts location prio st).2
  | GetUnsyncedBatch _ => st
  | MarkSynced commit_ok ids => (mark_synced commit_ok ids st).2
  | IncrementRetry ids => (increment_retry ids st).2
  | Cleanup now days vacuum_ok => (cleanup_old_data now days vacuum_ok st).2
  | GetStats _ _ => st
  end.

Definition run (ops : list op) (st : DataBuffer) : DataBuffer :=
  fold_left step ops st.

(** What holds of every table the operations build from an empty one:
    rowids are unique, none exceeds the AUTOINCREMENT counter, and no
    retry count is negative. *)
Definition wf (st : DataBuffer) : Prop :=
  NoDup (map rowid (rows st))
  /\ Forall (fun r => rowid r <= seq st) (rows st)
  /\ Forall (fun r => 0 <= retry_count r) (rows st).

(** ** The sync worker of FirebaseSync *)

(** An entry of [sync_queue]. *)
Record item := {
  item_timestamp : string;
  data : dict;
  attempts : Z
}.

(** The keys of the [firebase] configuration the worker reads. *)
Record config := {
  batch_size : option Z;
  sync_interval : option Z
}.

(** [config.get(key, default)] *)
Definition config_get (o : option Z) (default : Z) : Z :=
  match o with
  | Some v => v
  | None => default
  end.

(** The queue together with the two locals of [sync_worker].  A
    datetime is its number of microseconds since the start of the
    calendar. *)
Record sync_state := {
  sync_queue : list item;
  batch : list dict;
  last_sync : Z
}.

(** [queue_data]: [utcnow] is [datetime.utcnow().isoformat()]. *)
Definition queue_data (utcnow : string) (d : dict) (s : sync_state)
  : sync_state :=
  {| sync_queue := sync_queue s ++
       [{| item_timestamp := utcnow; data := d; attempts := 0 |}];
     batch := batch s;
     last_sync := last_sync s |}.

(** [td.seconds] of a timedelta of [us] microseconds: the seconds
    within the day, the days being kept apart in [td.days]. *)
Definition timedelta_seconds (us : Z) : Z := (us / 1000000) mod 86400.

(** What one turn of the loop reads from outside: the clock at the
    test of [should_sync], the answer of [batch_upload], the clock after
    the upload and the text of [datetime.utcnow().isoformat()]. *)
Record tick := {
  now : Z;
  upload_ok : bool;
  now_after : Z;
  utcnow_text : string
}.

Definition nonempty {A} (l : list A) : bool :=
  match l with
  | [] => false
  | _ => true
  end.

(** One turn of the [while] loop of [sync_worker].  A non-empty queue
    hands out its head; an empty one raises [queue.Empty] after the
    one-second timeout.  The second component is the batch given to
    [batch_upload] in this turn, if any, with the answer. *)
Definition sync_worker_turn (cfg : config) (t : tick) (s : sync_state)
  : sync_state * option (list dict * bool) :=
  match sync_queue s with
  | it :: rest =>
      let batch' := batch s ++ [data it] in
      let should_sync :=
        (config_get (batch_size cfg) 100 <=? Z.of_nat (length batch'))
        || (config_get (sync_interval cfg) 30
              <=? timedelta_seconds (now t - last_sync s)) in
      if should_sync && nonempty batch' then
        if upload_ok t then
          ({| sync_queue := rest; batch := []; last_sync := now_after t |},
           Some (batch', true))
        else
          ({| sync_queue := rest ++
                map (fun d => {| item_timestamp := utcnow_text t;
                                 data := d;
                                 attempts := attempts it + 1 |}) batch';
              batch := [];
              last_sync := last_sync s |},
           Some (batch', false))
      else
        ({| sync_queue := rest; batch := batch'; last_sync := last_sync s |},
         None)
  | [] =>
      if nonempty (batch s) then
        if upload_ok t then
          ({| sync_queue := []; batch := []; last_sync := now_after t |},
           Some (batch s, true))
        else (s, Some (batch s, false))
      else (s, None)
  end.

(** The worker run over a list of turns, with the uploads of each. *)
Fixpoint sync_worker (cfg : config) (ts : list tick) (s : sync_state)
  : sync_state * list (option (list dict * bool)) :=
  match ts with
  | [] => (s, [])
  | t :: ts' =>
      let '(s', ev) := sync_worker_turn cfg t s in
      let '(s'', evs) := sync_worker cfg ts' s' in
      (s'', ev :: evs)
  end.

(** ** The tracker: one buffer, one sync service *)

Record world := {
  buffer : DataBuffer;
  sync : sync_state
}.

(** [FleetTracker.handle_gps_update]: the location, stamped with the
    device id, goes into the buffer and onto the sync queue. *)
Definition handle_gps_update (dev : value) (current_timestamp utcnow : string)
    (location : dict) (w : world) : world :=
  let location := <["device_id" := dev]> location in
  {| buffer := (insert_location current_timestamp location 0 (buffer w)).2;
     sync := queue_data utcnow location (sync w) |}.

(** A turn of the worker inside the tracker: [FirebaseSync] holds no
    reference to the [DataBuffer]. *)
Definition worker_turn (cfg : config) (t : tick) (w : world)
  : world * option (list dict * bool) :=
  let '(s', ev) := sync_worker_turn cfg t (sync w) in
  ({| buffer := buffer w; sync := s' |}, ev).

(** ** Notions used in the statements *)

(** The order the spec words as "priority descending, then creation
    time ascending": [a] may come before [b]. *)
Definition dispatch_order (a b : row) : Prop :=
  priority b < priority a
  \/ (priority a = priority b
      /\ String.leb (timestamp a) (timestamp b) = true).

(** What SQLite can bind, the SQLite value of a Python value that can
    be bound, and what a NOT NULL column refuses. *)
Definition bindable (v : value) : bool :=
  match v with
  | VInt n => in_int64 n
  | _ => true
  end.

Definition bound (v : value) : value :=
  match v with
  | VBool b => VInt (if b then 1 else 0)
  | VFloat bits => if is_nan bits then VNone else v
  | _ => v
  end.

Definition is_none (v : value) : bool :=
  match v with
  | VNone => true
  | _ => false
  end.

Definition is_null (v : value) : bool := is_none (bound v).

(** What a TEXT, a REAL and an INTEGER column store for a Python value
    that can be bound. *)
Definition stored_text (lib : text_conversions) (v : value) : value :=
  text_affinity lib (bound v).

Definition stored_real (lib : text_conversions) (v : value) : value :=
  real_affinity lib (bound v).

Definition stored_integer (lib : text_conversions) (v : value) : value :=
  integer_affinity lib (bound v).

(** The row a successful [insert_location] writes under the id [i]. *)
Definition inserted_row (lib : text_conversions) (current_timestamp : string)
    (location : dict) (prio : Z) (i : Z) : row :=
  {| rowid := i;
     timestamp := current_timestamp;
     device_id := stored_text lib (get location "device_id" (VStr "unknown"));
     latitude := stored_real lib (get location "latitude" VNone);
     longitude := stored_real lib (get location "longitude" VNone);
     speed := stored_real lib (get location "speed" (VInt 0));
     heading := stored_real lib (get location "heading" (VInt 0));
     altitude := stored_real lib (get location "altitude" (VInt 0));
     satellites := stored_integer lib (get location "satellites" (VInt 0));
     hdop := stored_real lib (get location "hdop" (VInt 0));
     synced := false;
     priority := prio;
     compressed_data :=
       if dict_truthy (extra_data location)
       then Some (Gz (extra_data location)) else None;
     retry_count := 0 |}.

(** The inputs on which the [try] block of [insert_location] reaches
    its [return True]: the extras, if any, are serializable; latitude
    and longitude are present; every bound value fits; device id,
    latitude and longitude are neither None nor NaN; the rowid counter
    is not exhausted. *)
Definition insertable (location : dict) (prio : Z) (st : DataBuffer) : bool :=
  (if dict_truthy (extra_data location)
   then forallb (fun kv => json_serializable_value kv.2)
                (map_to_list (extra_data location))
   else true)
  && match location !! "latitude", location !! "longitude" with
     | Some lat, Some lon =>
         bindable (get location "device_id" (VStr "unknown"))
         && bindable lat && bindable lon
         && bindable (get location "speed" (VInt 0))
         && bindable (get location "heading" (VInt 0))
         && bindable (get location "altitude" (VInt 0))
         && bindable (get location "satellites" (VInt 0))
         && bindable (get location "hdop" (VInt 0))
         && in_int64 prio
         && negb (is_null (get location "device_id" (VStr "unknown")))
         && negb (is_null lat) && negb (is_null lon)
         && (seq st <? int64_max)
     | _, _ => false
     end.

(** The id lists SQLite accepts as the parameters of one statement. *)
Definition ids_ok (st : DataBuffer) (ids : list Z) : bool :=
  (Z.of_nat (length ids) <=? max_variable_number st) && forallb in_int64 ids.


(** A property [P] of the rows under the id [i] that holds now and
    that the id, already given out, cannot lose to a new row. *)
Definition kept_under (P : row -> Prop) (i : Z) (st : DataBuffer) : Prop :=
  i <= seq st /\ forall r, In r (rows st) -> rowid r = i -> P r.

(** The keys of an inserted location that go into the blob although the
    record [get_unsynced_batch] returns has a field of that name. *)
Definition shadowing_keys : list string :=
  ["id"; "device_id"; "altitude"; "satellites"; "hdop"].

(** Python's [True] and [False] read as integers. *)
Definition bool_as_int (b : bool) : Z := if b then 1 else 0.

(** The item a failed upload puts back on the queue for [d]. *)
Definition requeued (t : tick) (it : item) (d : dict) : item :=
  {| item_timestamp := utcnow_text t; data := d; attempts := attempts it + 1 |}.

(** The size and the answer of an upload. *)
Definition upload_size (ev : option (list dict * bool)) : option (nat * bool) :=
  match ev with
  | Some (pushed, ok) => Some (length pushed, ok)
  | None => None
  end.

(** What the spec expects of the store after a push of the records
    with the ids [ids]: after a success they are all synced; after a
    failure each has its retry count raised by one and is not synced. *)
Definition store_follows_push (ok : bool) (ids : list Z)
    (b b' : DataBuffer) : Prop :=
  if ok then
    forall r', In r' (rows b') -> In (rowid r') ids -> synced r' = true
  else
    forall r r', In r (rows b) -> In r' (rows b') -> rowid r' = rowid r ->
                 In (rowid r) ids ->
                 retry_count r' = retry_count r + 1 /\ synced r' = false.

(** A naive datetime as microseconds since 1970-01-01T00:00:00. *)
Definition datetime_micros (dt : datetime) : Z :=
  (((days_from_civil (year dt) (month dt) (day dt) * 24 + hour dt) * 60
    + minute dt) * 60 + second dt) * 1000000 + microsecond dt.

(** ** Sample data *)

(** The conversions of the samples, which bind no float to the TEXT
    column and no text to a numeric column: they are never asked. *)
Definition sample_conversions : text_conversions :=
  {| text_of_real := fun _ => ""; number_of_text := fun _ => None |}.

(** A fresh database. *)
Definition empty_buffer : DataBuffer :=
  {| rows := []; seq := 0; max_variable_number := 32766;
     conversions := sample_conversions; vacuums := 0 |}.

(** A fix as the GPS tracker hands it over: 52.5 N, 13.25 E. *)
Definition gps_fix : dict :=
  <["latitude" := VFloat 4632585535448154112]>
  (<["longitude" := VFloat 4623648704937590784]>
  (<["timestamp" := VStr "2024-01-08T12:00:00.250000"]>
  (<["valid" := VBool true]> ∅))).

(** A fix with a raw heading among its attributes. *)
Definition fix_with_extra : dict :=
  <["heading_raw" := VStr "123.4"]> gps_fix.

(** A fix whose attributes include keys that are columns of the
    record [get_unsynced_batch] returns. *)
Definition fix_with_id : dict :=
  <["id" := VInt 99]> (<["altitude" := VInt 150]> gps_fix).

(** A fix whose latitude is a NaN. *)
Definition fix_with_nan : dict :=
  <["latitude" := VFloat 9221120237041090560]> gps_fix.

(** The buffer after one fix. *)
Definition one_fix : DataBuffer :=
  run [Insert "2024-01-08 12:00:00" gps_fix 0] empty_buffer.

(** Three fixes buffered in this order with priorities 0, 0 and 5. *)
Definition three_fixes : DataBuffer :=
  run [Insert "2024-01-08 12:00:00" gps_fix 0;
       Insert "2024-01-08 12:00:10" gps_fix 0;
       Insert "2024-01-08 12:00:20" gps_fix 5] empty_buffer.

Definition at_time (y mo d h mi s : Z) : datetime :=
  {| year := y; month := mo; day := d;
     hour := h; minute := mi; second := s; microsecond := 0 |}.

(** One fix, buffered on 2024-01-08 at 12:00:00 UTC and then marked
    synced. *)
Definition delivered_fix : DataBuffer :=
  run [Insert (sqlite_timestamp (at_time 2024 1 8 12 0 0)) gps_fix 0;
       MarkSynced true [1]] empty_buffer.

(** One fix, buffered on 2024-01-09 at 04:00:00 UTC and then marked
    synced; on a device eight hours behind UTC the local time is then
    20:00:00 of 2024-01-08. *)
Definition delivered_overnight : DataBuffer :=
  run [Insert (sqlite_timestamp (at_time 2024 1 9 4 0 0)) gps_fix 0;
       MarkSynced true [1]] empty_buffer.

(** The configuration of the scenario: batches of 100, every 30 s. *)
Definition cfg_100_30 : config :=
  {| batch_size := Some 100; sync_interval := Some 30 |}.

Definition idle_sync : sync_state :=
  {| sync_queue := []; batch := []; last_sync := 0 |}.

(** [n] locations put on the queue of an idle worker. *)
Definition queued (n : nat) : sync_state :=
  Nat.iter n (queue_data "2024-01-08T12:00:00" gps_fix) idle_sync.

(** The worker takes an item every 10 ms from time 10 ms on; an upload
    succeeds and takes 5 ms. *)
Definition busy_tick (i : nat) : tick :=
  {| now := Z.of_nat i * 10000;
     upload_ok := true;
     now_after := Z.of_nat i * 10000 + 5000;
     utcnow_text := "2024-01-08T12:00:00" |}.

(** After the 150th item, taken at 1.5 s, the queue stays empty and
    [get] gives up one second later, at 2.5 s. *)
Definition idle_tick : tick :=
  {| now := 2500000;
     upload_ok := true;
     now_after := 2505000;
     utcnow_text := "2024-01-08T12:00:02" |}.

Definition scenario_ticks : list tick :=
  map busy_tick (List.seq 1 150) ++ [idle_tick].

(** A turn 31 s after the start of the worker. *)
Definition tick_late : tick :=
  {| now := 31000000; upload_ok := true; now_after := 31005000;
     utcnow_text := "2024-01-08T12:00:31" |}.

(** The tracker after its first fix, with a worker that uploads every
    single location. *)
Definition cfg_each : config :=
  {| batch_size := Some 1; sync_interval := Some 30 |}.

Definition tracker_start : world :=
  {| buffer := empty_buffer; sync := idle_sync |}.

Definition tracker_one_fix : world :=
  handle_gps_update (VStr "fleet-001") "2024-01-08 12:00:00"
    "2024-01-08T12:00:00" gps_fix tracker_start.

Definition tick_ok : tick :=
  {| now := 1000000; upload_ok := true; now_after := 1200000;
     utcnow_text := "2024-01-08T12:00:01" |}.

Definition tick_failed : tick :=
  {| now := 1000000; upload_ok := false; now_after := 1200000;
     utcnow_text := "2024-01-08T12:00:01" |}.

(** Two rows that agree on every column but [retry_count]. *)
Definition same_but_retry (r r' : row) : Prop :=
  rowid r' = rowid r /\ timestamp r' = timestamp r
  /\ device_id r' = device_id r
  /\ latitude r' = latitude r /\ longitude r' = longitude r
  /\ speed r' = speed r /\ heading r' = heading r
  /\ altitude r' = altitude r /\ satellites r' = satellites r
  /\ hdop r' = hdop r /\ priority r' = priority r
  /\ compressed_data r' = compressed_data r
  /\ synced r' = synced r.

(** What the calls of a run report about the number of rows: one for
    every [insert_location] that returned [True], minus the count every
    [cleanup_old_data] returned. *)
Fixpoint reported_rows (ops : list op) (st : DataBuffer) : Z :=
  match ops with
  | [] => 0
  | o :: ops' =>
      match o with
      | Insert ts location prio =>
          bool_as_int (insert_location ts location prio st).1
      | Cleanup now days vacuum_ok =>
          - (cleanup_old_data now days vacuum_ok st).1
      | _ => 0
      end + reported_rows ops' (step st o)
  end.

(** No VACUUM of the run fails. *)
Definition vacuum_succeeds (o : op) : Prop :=
  match o with
  | Cleanup _ _ vacuum_ok => vacuum_ok = true
  | _ => True
  end.

(** ** Calendar dates as text *)

(** A date whose year has four digits, the dates a [datetime] can hold
    from year 0 on. *)
Definition calendar_date (dt : datetime) : Prop :=
  0 <= year dt <= 9999 /\ 1 <= month dt <= 12 /\ 1 <= day dt <= 31.

(** [a]'s day is [b]'s day or an earlier one. *)
Definition date_leb (a b : datetime) : bool :=
  (year a <? year b)
  || ((year a =? year b)
      && ((month a <? month b)
          || ((month a =? month b) && (day a <=? day b)))).

Definition comparison_eqb (c1 c2 : comparison) : bool :=
  match c1, c2 with
  | Eq, Eq | Lt, Lt | Gt, Gt => true
  | _, _ => false
  end.

(** Month and day of the date that is [doe] days into its 400-year
    era, as [civil_from_days] computes them. *)
Definition month_day_of_doe (doe : Z) : Z * Z :=
  let yoe := (doe - doe / 1460 + doe / 36524 - doe / 146096) / 365 in
  let doy := doe - (365 * yoe + yoe / 4 - yoe / 100) in
  let mp := (5 * doy + 2) / 153 in
  let d := doy - (153 * mp + 2) / 5 + 1 in
  let m := if mp <? 10 then mp + 3 else mp - 9 in
  (m, d).

(** [p] holds of the [n] integers from [z] on. *)
Fixpoint all_from (p : Z -> bool) (n : nat) (z : Z) : bool :=
  match n with
  | O => true
  | S n' => p z && all_from p n' (z + 1)
  end.

(** The locations the uploads of a run delivered: the members of the
    batches whose upload succeeded. *)
Definition delivered (evs : list (option (list dict * bool))) : list dict :=
  concat (map (fun ev => match ev with
                         | Some (pushed, true) => pushed
                         | _ => []
                         end) evs).

(** An upload of between one and [b] locations, or no upload. *)
Definition upload_within (b : Z) (ev : option (list dict * bool)) : Prop :=
  match ev with
  | Some (pushed, _) => 1 <= Z.of_nat (length pushed) <= b
  | None => True
  end.

(** ** batch_upload of FirebaseSync *)

(** [s.replace('.', '_')] *)
Fixpoint replace_dot (s : string) : string :=
  match s with
  | EmptyString => EmptyString
  | String c s' =>
      String (if Ascii.eqb c "."%char then "_"%char else c) (replace_dot s')
  end.

(** The history of one device on the remote database: the locations
    under [vehicles/<device_id>/history], by key. *)
Abbreviation history := (gmap string dict).

(** The key of a location in the history:
    [location.get('timestamp', datetime.utcnow().isoformat())
       .replace('.', '_')],
    where only a string has a [replace] that takes these arguments;
    [utcnow] is the text of the clock. *)
Definition history_key (utcnow : string) (location : dict) : option string :=
  match location !! "timestamp" with
  | None => Some (replace_dot utcnow)
  | Some (VStr s) => Some (replace_dot s)
  | Some _ => None
  end.

(** The loop that fills [batch_data], from the [i]-th location on;
    [utcnow i] is the clock text read for the [i]-th location.  [None]
    when a timestamp makes [replace] raise. *)
Fixpoint fill_batch_data (utcnow : nat -> string) (i : nat)
    (locations : list dict) (batch_data : history) : option history :=
  match locations with
  | [] => Some batch_data
  | location :: rest =>
      match history_key (utcnow i) location with
      | Some key =>
          fill_batch_data utcnow (S i) rest (<[key := location]> batch_data)
      | None => None
      end
  end.

Definition json_serializable (location : dict) : bool :=
  forallb (fun kv => json_serializable_value kv.2) (map_to_list location).

(** [batch_upload]: [compression] is the configuration entry, if any,
    and [update_ok] tells whether [history_ref.update] succeeds, in
    which case the keys of [batch_data] are written over the history.
    Every exception ends in [return False] with nothing written. *)
Definition batch_upload (compression : option bool) (utcnow : nat -> string)
    (update_ok : bool) (locations : list dict) (h : history)
  : bool * history :=
  if default true compression && negb (forallb json_serializable locations)
  then (false, h)
  else
    match fill_batch_data utcnow 0 locations ∅ with
    | None => (false, h)
    | Some batch_data =>
        if update_ok then (true, batch_data ∪ h) else (false, h)
    end.

(** A location that carries its timestamp as a string. *)
Definition stamped (location : dict) : Prop :=
  exists s, location !! "timestamp" = Some (VStr s).

(** The character [.] occurs in [s]. *)
Fixpoint has_dot (s : string) : bool :=
  match s with
  | EmptyString => false
  | String c s' => Ascii.eqb c "."%char || has_dot s'
  end.

(** ** The power monitor of PowerManager *)

(** What the five reads of one [get_status] return from the I2C bus:
    the register value, or [None] when the read raises. *)
Record bus_reads := {
  voltage_raw : option Z;
  current_raw : option Z;
  capacity_raw : option Z;
  charging_raw : option Z;
  power_raw : option Z
}.

(** [read_voltage] and [read_current] scale the masked register by a
    positive constant; the model keeps the masked register, in units
    of 1.25 mV and of 0.1 mA, and 0 for the 0.0 of a failed read. *)
Definition read_voltage (r : bus_reads) : Z :=
  match voltage_raw r with
  | Some raw => Z.land raw 65535
  | None => 0
  end.

Definition read_current (r : bus_reads) : Z :=
  match current_raw r with
  | Some raw => Z.land raw 65535
  | None => 0
  end.

(** [min(100, max(0, capacity))], 0 when the read raises. *)
Definition read_capacity (r : bus_reads) : Z :=
  match capacity_raw r with
  | Some capacity => Z.min 100 (Z.max 0 capacity)
  | None => 0
  end.

(** [(status & 0x01) != 0], [False] when the read raises. *)
Definition is_charging (r : bus_reads) : bool :=
  match charging_raw r with
  | Some status => negb (Z.land status 1 =? 0)
  | None => false
  end.

(** [(status & 0x02) != 0], [False] when the read raises. *)
Definition is_external_power (r : bus_reads) : bool :=
  match power_raw r with
  | Some status => negb (Z.land status 2 =? 0)
  | None => false
  end.

(** The dictionary [get_status] returns. *)
Record power_status := {
  voltage : Z;
  current : Z;
  capacity : Z;
  charging : bool;
  external_power : bool;
  status_time : Z
}.

Definition get_status (time_now : Z) (r : bus_reads) : power_status :=
  {| voltage := read_voltage r;
     current := read_current r;
     capacity := read_capacity r;
     charging := is_charging r;
     external_power := is_external_power r;
     status_time := time_now |}.

(** The keys of the [power] configuration the monitor reads. *)
Record power_config := {
  low_battery_threshold : option Z;
  critical_battery_threshold : option Z;
  shutdown_delay : option Z
}.

(** The three locals of [monitor_power]. *)
Record monitor := {
  power_lost_time : option Z;
  low_battery_warned : bool;
  critical_battery_warned : bool
}.

(** The events a turn triggers, and the call of [initiate_shutdown]. *)
Inductive power_event :=
| PowerLost
| PowerRestored
| BatteryCritical
| BatteryLow
| InitiateShutdown (delay : Z).

(** "Check external power loss": the first block of a turn. *)
Definition check_power_loss (time_now : Z) (status : power_status)
    (m : monitor) : monitor * list power_event :=
  if negb (external_power status) && (0 <? voltage status) then
    match power_lost_time m with
    | None =>
        ({| power_lost_time := Some time_now;
            low_battery_warned := low_battery_warned m;
            critical_battery_warned := critical_battery_warned m |},
         [PowerLost])
    | Some _ => (m, [])
    end
  else
    match power_lost_time m with
    | Some _ =>
        ({| power_lost_time := None;
            low_battery_warned := false;
            critical_battery_warned := false |},
         [PowerRestored])
    | None => (m, [])
    end.

(** "Check battery levels": the second block. *)
Definition check_battery_levels (cfg : power_config) (status : power_status)
    (m : monitor) : monitor * list power_event :=
  if (capacity status <=? config_get (critical_battery_threshold cfg) 5)
     && negb (critical_battery_warned m) then
    ({| power_lost_time := power_lost_time m;
        low_battery_warned := low_battery_warned m;
        critical_battery_warned := true |},
     BatteryCritical
       :: (if negb (external_power status)
           then [InitiateShutdown (config_get (shutdown_delay cfg) 60)]
           else []))
  else if (capacity status <=? config_get (low_battery_threshold cfg) 20)
          && negb (low_battery_warned m) then
    ({| power_lost_time := power_lost_time m;
        low_battery_warned := true;
        critical_battery_warned := critical_battery_warned m |},
     [BatteryLow])
  else (m, []).

(** "Reset warnings if battery is charging": the third block. *)
Definition reset_warnings (cfg : power_config) (status : power_status)
    (m : monitor) : monitor :=
  if charging status
     && (config_get (low_battery_threshold cfg) 20 <? capacity status) then
    {| power_lost_time := power_lost_time m;
       low_battery_warned := false;
       critical_battery_warned := false |}
  else m.

(** One turn of the [while] loop of [monitor_power]; [time_now] is
    [time.time()]. *)
Definition monitor_turn (cfg : power_config) (time_now : Z) (r : bus_reads)
    (m : monitor) : monitor * list power_event :=
  let status := get_status time_now r in
  let '(m1, ev1) := check_power_loss time_now status m in
  let '(m2, ev2) := check_battery_levels cfg status m1 in
  (reset_warnings cfg status m2, ev1 ++ ev2).

(** The monitor over a list of turns, each with its clock and reads. *)
Fixpoint monitor_power (cfg : power_config) (turns : list (Z * bus_reads))
    (m : monitor) : monitor * list power_event :=
  match turns with
  | [] => (m, [])
  | (time_now, r) :: rest =>
      let '(m', ev) := monitor_turn cfg time_now r m in
      let '(m'', evs) := monitor_power cfg rest m' in
      (m'', ev ++ evs)
  end.

(** The locals at the start of [monitor_power]. *)
Definition monitor_start : monitor :=
  {| power_lost_time := None;
     low_battery_warned := false;
     critical_battery_warned := false |}.

(** Reads of a bus that does not answer. *)
Definition dead_bus : bus_reads :=
  {| voltage_raw := None; current_raw := None; capacity_raw := None;
     charging_raw := None; power_raw := None |}.

Definition is_shutdown (e : power_event) : bool :=
  match e with
  | InitiateShutdown _ => true
  | _ => false
  end.

(** A turn on battery power in which the voltage reads above zero
    (the read did not fail) and the battery is not being charged above
    the low threshold. *)
Definition discharging (cfg : power_config) (turn : Z * bus_reads) : Prop :=
  is_external_power turn.2 = false
  /\ 0 < read_voltage turn.2
  /\ (is_charging turn.2 = false
      \/ read_capacity turn.2 <= config_get (low_battery_threshold cfg) 20).

(** The power-loss and power-restored events of a run alternate;
    [lost] tells whether the next one is a restoration. *)
Fixpoint alternating (lost : bool) (evs : list power_event) : Prop :=
  match evs with
  | [] => True
  | PowerLost :: evs' => lost = false /\ alternating true evs'
  | PowerRestored :: evs' => lost = true /\ alternating false evs'
  | _ :: evs' => alternating lost evs'
  end.

(** External power is taken as lost: [power_lost_time is not None]. *)
Definition power_lost (m : monitor) : bool :=
  match power_lost_time m with
  | Some _ => true
  | None => false
  end.

(** ** The tracker as a whole *)

(** What happens around the buffer while the tracker runs: a fix
    arrives from the GPS thread, the sync worker takes a turn, or the
    main loop runs its periodic cleanup with the configured retention.
    Nothing else in the tracker touches the buffer. *)
Inductive tracker_op :=
| GpsUpdate (current_timestamp utcnow : string) (location : dict)
| WorkerTurn (t : tick)
| PeriodicCleanup (now : datetime) (retention_days : Z) (vacuum_ok : bool).

Definition tracker_step (dev : value) (cfg : config) (w : world)
    (o : tracker_op) : world :=
  match o with
  | GpsUpdate current_timestamp utcnow location =>
      handle_gps_update dev current_timestamp utcnow location w
  | WorkerTurn t => (worker_turn cfg t w).1
  | PeriodicCleanup now retention_days vacuum_ok =>
      {| buffer := (cleanup_old_data now retention_days vacuum_ok
                      (buffer w)).2;
         sync := sync w |}
  end.

Definition tracker_run (dev : value) (cfg : config) (ops : list tracker_op)
    (w : world) : world :=
  fold_left (tracker_step dev cfg) ops w.

(** ** ConfigManager.get *)

(** A loaded configuration: a scalar, a list or a dictionary. *)
#[warnings="-register-all"]
Inductive cval :=
| CLeaf (v : value)
| CList (l : list cval)
| CDict (d : list (string * cval)).

(** [key.split('.')] *)
Fixpoint split_dot (s : string) : list string :=
  match s with
  | EmptyString => [EmptyString]
  | String c s' =>
      if Ascii.eqb c "."%char then EmptyString :: split_dot s'
      else match split_dot s' with
           | head :: tail => String c head :: tail
           | [] => [String c EmptyString]
           end
  end.

(** [d.get(k)] of a dictionary: the value, or None. *)
Fixpoint dict_get (k : string) (d : list (string * cval)) : cval :=
  match d with
  | [] => CLeaf VNone
  | (k', v) :: d' => if String.eqb k k' then v else dict_get k d'
  end.

(** The [for k in keys] loop of [get]: the value reached, or [None]
    when the loop leaves through [return default]. *)
Fixpoint descend (keys : list string) (v : cval) : option cval :=
  match keys with
  | [] => Some v
  | k :: keys' =>
      match v with
      | CDict d => descend keys' (dict_get k d)
      | _ => None
      end
  end.

(** [ConfigManager.get(key, default)] on the configuration [config]. *)
Definition config_manager_get (config : cval) (key : string) (default : cval)
  : cval :=
  match descend (split_dot key) config with
  | None => default
  | Some (CLeaf VNone) => default
  | Some v => v
  end.

(** A configuration with a nested section. *)
Definition sample_config : cval :=
  CDict [("device", CDict [("id", CLeaf (VStr "fleet-001"))]);
         ("buffer", CDict [("retention_days", CLeaf (VInt 7));
                           ("cleanup_interval", CLeaf (VInt 3600))])].

(** * Properties *)

(** ** The error monad *)

Lemma bind_Ok {A B} (m : M A) (k : A -> M B) (b : B) :
  bind m k = Ok b -> exists a, m = Ok a /\ k a = Ok b.
Proof. destruct m as [e|a]; simpl; [discriminate | eauto]. Qed.

Lemma bind_int_Ok n m : bind_int n = Ok m -> m = n /\ in_int64 n = true.
Proof.
  unfold bind_int. destruct (in_int64 n); [|discriminate].
  intros [= ->]. auto.
Qed.

Lemma bind_value_Ok v w : bind_value v = Ok w -> w = bound v.
Proof.
  unfold bind_value, bound, ret, raise. destruct v.
  - intros [= <-]; reflexivity.
  - intros [= <-]; reflexivity.
  - destruct (in_int64 n); [intros [= <-]; reflexivity | discriminate].
  - destruct (is_nan bits); intros [= <-]; reflexivity.
  - intros [= <-]; reflexivity.
  - intros [= <-]; reflexivity.
Qed.

Lemma not_null_Ok v w : not_null v = Ok w -> w = v /\ v <> VNone.
Proof. destruct v; simpl; intros [= <-]; split; congruence. Qed.

(** ** Text comparison *)

Lemma ascii_compare_refl c : Ascii.compare c c = Eq.
Proof. unfold Ascii.compare. apply N.compare_refl. Qed.

Lemma ascii_compare_trans c1 c2 c3 o :
  Ascii.compare c1 c2 = o -> Ascii.compare c2 c3 = o -> Ascii.compare c1 c3 = o.
Proof.
  unfold Ascii.compare. destruct o; intros H1 H2.
  - apply N.compare_eq_iff in H1, H2. apply N.compare_eq_iff. congruence.
  - rewrite N.compare_lt_iff in *. lia.
  - rewrite N.compare_gt_iff in *. lia.
Qed.

Lemma string_compare_refl s : String.compare s s = Eq.
Proof.
  induction s as [|c s IH]; simpl; [reflexivity|].
  rewrite ascii_compare_refl. exact IH.
Qed.

Lemma string_compare_trans s1 : forall s2 s3 o,
  String.compare s1 s2 = o -> String.compare s2 s3 = o ->
  String.compare s1 s3 = o.
Proof.
  induction s1 as [|c1 s1 IH]; intros [|c2 s2] [|c3 s3] o; simpl;
    try congruence.
  destruct (Ascii.compare c1 c2) eqn:E12, (Ascii.compare c2 c3) eqn:E23;
    intros H1 H2; subst; try congruence.
  - rewrite (ascii_compare_trans _ _ _ _ E12 E23). eauto.
  - apply Ascii.compare_eq_iff in E12. subst. rewrite E23. congruence.
  - apply Ascii.compare_eq_iff in E12. subst. rewrite E23. congruence.
  - apply Ascii.compare_eq_iff in E23. subst. rewrite E12. congruence.
  - rewrite (ascii_compare_trans _ _ _ _ E12 E23). reflexivity.
  - apply Ascii.compare_eq_iff in E23. subst. rewrite E12. congruence.
  - rewrite (ascii_compare_trans _ _ _ _ E12 E23). reflexivity.
Qed.

Lemma string_leb_trans s1 s2 s3 :
  String.leb s1 s2 = true -> String.leb s2 s3 = true ->
  String.leb s1 s3 = true.
Proof.
  unfold String.leb.
  destruct (String.compare s1 s2) eqn:E12; try discriminate;
    destruct (String.compare s2 s3) eqn:E23; try discriminate; intros _ _.
  - rewrite (string_compare_trans _ _ _ _ E12 E23). reflexivity.
  - apply String.compare_eq_iff in E12. subst. rewrite E23. reflexivity.
  - apply String.compare_eq_iff in E23. subst. rewrite E12. reflexivity.
  - rewrite (string_compare_trans _ _ _ _ E12 E23). reflexivity.
Qed.

(** ** The order of the SELECT *)

Lemma order_by_spec a b : order_by a b = true <-> dispatch_order a b.
Proof.
  unfold order_by, dispatch_order.
  rewrite orb_true_iff, andb_true_iff, Z.ltb_lt, Z.eqb_eq. tauto.
Qed.

Lemma order_by_total a b : order_by a b = false -> order_by b a = true.
Proof.
  unfold order_by. rewrite orb_false_iff, andb_false_iff.
  intros [Hlt Hor]. apply Z.ltb_ge in Hlt.
  destruct (Z.eq_dec (priority a) (priority b)) as [Heq|Hne].
  - destruct Hor as [Hor|Hor]; [apply Z.eqb_neq in Hor; lia|].
    rewrite Heq, Z.ltb_irrefl, Z.eqb_refl. simpl.
    destruct (String.leb_total (timestamp a) (timestamp b)); congruence.
  - assert ((priority a <? priority b) = true) as -> by (apply Z.ltb_lt; lia).
    reflexivity.
Qed.

Lemma dispatch_order_trans a b c :
  dispatch_order a b -> dispatch_order b c -> dispatch_order a c.
Proof.
  unfold dispatch_order. intros [H1|[H1 L1]] [H2|[H2 L2]];
    try (left; lia).
  right. split; [lia|]. eapply string_leb_trans; eauto.
Qed.

Lemma insert_row_perm x l : Permutation (insert_row x l) (x :: l).
Proof.
  induction l as [|y l IH]; simpl; [reflexivity|].
  destruct (order_by x y); [reflexivity|].
  rewrite IH. apply perm_swap.
Qed.

Lemma sort_rows_perm l : Permutation (sort_rows l) l.
Proof.
  induction l as [|x l IH]; simpl; [reflexivity|].
  rewrite insert_row_perm. constructor. exact IH.
Qed.

Lemma insert_row_sorted x l :
  StronglySorted dispatch_order l ->
  StronglySorted dispatch_order (insert_row x l).
Proof.
  induction 1 as [|y l Hs IH Hall]; simpl.
  - repeat constructor.
  - destruct (order_by x y) eqn:E.
    + apply order_by_spec in E. constructor.
      * constructor; assumption.
      * constructor; [exact E|].
        eapply Forall_impl; [exact Hall|].
        intros z Hz. eapply dispatch_order_trans; eauto.
    + apply order_by_total, order_by_spec in E. constructor; [exact IH|].
      rewrite (insert_row_perm x l). constructor; assumption.
Qed.

Lemma sort_rows_sorted l : StronglySorted dispatch_order (sort_rows l).
Proof.
  induction l as [|x l IH]; simpl; [constructor|].
  apply insert_row_sorted. exact IH.
Qed.

Lemma take_sorted {A} (R : A -> A -> Prop) n (l : list A) :
  StronglySorted R l -> StronglySorted R (take n l).
Proof.
  intros H. revert n. induction H as [|x l Hs IH Hall]; intros [|n]; simpl;
    try constructor; auto.
  apply Forall_take. exact Hall.
Qed.

(** ** insert_location *)

Ltac inv_bind H :=
  let a := fresh "a" in
  let E := fresh "E" in
  apply bind_Ok in H; destruct H as (a & E & H).

Lemma getitem_Ok location k v :
  getitem location k = Ok v -> location !! k = Some v.
Proof. unfold getitem. destruct (location !! k); [intros [= ->]; reflexivity|discriminate]. Qed.

Lemma get_Some location k v d : location !! k = Some v -> get location k d = v.
Proof. unfold get. intros ->. reflexivity. Qed.

Lemma compress_json_Ok d b : compress_json d = Ok b -> b = Gz d.
Proof.
  unfold compress_json. destruct (forallb _ _); [|discriminate].
  intros [= <-]. reflexivity.
Qed.

(** What a successful insert did. *)
Lemma insert_location_body_Ok ts location prio st st' :
  insert_location_body ts location prio st = Ok st' ->
  st' = {| rows := rows st
                   ++ [inserted_row (conversions st) ts location prio
                         (seq st + 1)];
           seq := seq st + 1;
           max_variable_number := max_variable_number st;
           conversions := conversions st;
           vacuums := vacuums st |}
  /\ (exists lat, location !! "latitude" = Some lat /\ bound lat <> VNone)
  /\ (exists lon, location !! "longitude" = Some lon /\ bound lon <> VNone)
  /\ in_int64 prio = true
  /\ seq st < int64_max.
Proof.
  unfold insert_location_body. intros H.
  inv_bind H. rename a into compressed, E into Hc.
  inv_bind H. rename a into lat0, E into Hlat. apply getitem_Ok in Hlat.
  inv_bind H. rename a into lon0, E into Hlon. apply getitem_Ok in Hlon.
  inv_bind H. apply bind_value_Ok in E; subst a.
  inv_bind H. apply bind_value_Ok in E; subst a.
  inv_bind H. apply bind_value_Ok in E; subst a.
  inv_bind H. apply bind_value_Ok in E; subst a.
  inv_bind H. apply bind_value_Ok in E; subst a.
  inv_bind H. apply bind_value_Ok in E; subst a.
  inv_bind H. apply bind_value_Ok in E; subst a.
  inv_bind H. apply bind_value_Ok in E; subst a.
  inv_bind H. apply bind_int_Ok in E. destruct E as [-> Hp].
  inv_bind H. apply not_null_Ok in E. destruct E as [-> _].
  inv_bind H. apply not_null_Ok in E. destruct E as [-> Hlat_nn].
  inv_bind H. apply not_null_Ok in E. destruct E as [-> Hlon_nn].
  inv_bind H.
  destruct (int64_max <=? seq st) eqn:Hseq; [discriminate|].
  apply Z.leb_gt in Hseq.
  injection H as <-.
  assert (compressed =
          (if dict_truthy (extra_data location)
           then Some (Gz (extra_data location)) else None)) as ->.
  { destruct (dict_truthy (extra_data location)).
    - inv_bind Hc. apply compress_json_Ok in E0. subst.
      injection Hc as <-. reflexivity.
    - injection Hc as <-. reflexivity. }
  unfold inserted_row, stored_text, stored_real, stored_integer.
  rewrite (get_Some _ _ _ VNone Hlat), (get_Some _ _ _ VNone Hlon).
  repeat split; eauto.
Qed.

Lemma insert_location_true ts location prio st st' :
  insert_location ts location prio st = (true, st') ->
  insert_location_body ts location prio st = Ok st'.
Proof.
  unfold insert_location.
  destruct (insert_location_body ts location prio st); intros [= <-].
  reflexivity.
Qed.

Lemma insert_location_false ts location prio st st' :
  insert_location ts location prio st = (false, st') -> st' = st.
Proof.
  unfold insert_location.
  destruct (insert_location_body ts location prio st); intros [= <-].
  reflexivity.
Qed.

(** ** get_unsynced_batch *)

Lemma get_unsynced_batch_eq batch_size st :
  get_unsynced_batch batch_size st
  = if in_int64 batch_size
    then map row_to_dict (select_unsynced batch_size st) else [].
Proof.
  unfold get_unsynced_batch, get_unsynced_batch_body, bind_int.
  destruct (in_int64 batch_size); reflexivity.
Qed.

Lemma sql_limit_incl {A} n (l : list A) x : In x (sql_limit n l) -> In x l.
Proof.
  unfold sql_limit. destruct (n <? 0); [auto|].
  rewrite <- !list_elem_of_In. apply subseteq_take.
Qed.

Lemma select_unsynced_In batch_size st r :
  In r (select_unsynced batch_size st) ->
  In r (rows st) /\ unsynced r = true.
Proof.
  unfold select_unsynced. intros H. apply sql_limit_incl in H.
  apply (Permutation_in _ (sort_rows_perm _)) in H.
  apply list_elem_of_In, list_elem_of_filter in H.
  rewrite list_elem_of_In in H. tauto.
Qed.

Lemma unsynced_spec r :
  unsynced r = true <-> synced r = false /\ retry_count r < 5.
Proof.
  unfold unsynced. rewrite andb_true_iff, negb_true_iff, Z.ltb_lt. tauto.
Qed.

(** A negative limit is SQLite's "no limit": with the limit -1 the
    three buffered fixes are all returned. *)
Lemma get_unsynced_batch_negative_limit :
  length (get_unsynced_batch (-1) three_fixes) = 3%nat.
Proof. vm_compute. reflexivity. Qed.

(** C2: for every store and every limit of 0 or more, what
    [get_unsynced_batch] returns are the dictionaries of rows of the
    table that are not synced and have a retry count below 5, at most
    limit of them, ordered by priority descending, then timestamp
    ascending.  When the limit fits 64 bits they are the first rows in
    that order, as many as the limit and the number of such rows allow;
    a larger limit cannot be bound and the method returns the empty
    list.  Three records inserted into an empty table with priorities
    0, 0 and 5, the second no earlier than the first, are claimed with
    limit 2 as the priority-5 record followed by the first priority-0
    record. *)
Theorem get_unsynced_batch_selects (st : DataBuffer) (batch_size : Z) :
  0 <= batch_size ->
  exists chosen,
    get_unsynced_batch batch_size st = map row_to_dict chosen
    /\ Forall (fun r => In r (rows st)
                        /\ synced r = false /\ retry_count r < 5) chosen
    /\ Z.of_nat (length chosen) <= batch_size
    /\ StronglySorted dispatch_order chosen
    /\ (if in_int64 batch_size
        then chosen = select_unsynced batch_size st
             /\ length chosen
                = Nat.min (Z.to_nat batch_size)
                    (length (filter (fun r => unsynced r = true) (rows st)))
        else chosen = [])
    /\ (forall st0 t1 t2 t3 l1 l2 l3 st1 st2 st3,
          rows st0 = [] ->
          insert_location t1 l1 0 st0 = (true, st1) ->
          insert_location t2 l2 0 st1 = (true, st2) ->
          insert_location t3 l3 5 st2 = (true, st3) ->
          String.leb t1 t2 = true ->
          exists r1 r2 r3,
            rows st3 = [r1; r2; r3]
            /\ priority r1 = 0 /\ priority r2 = 0 /\ priority r3 = 5
            /\ get_unsynced_batch 2 st3 = [row_to_dict r3; row_to_dict r1]).
Proof.
  intros Hpos.
  exists (if in_int64 batch_size then select_unsynced batch_size st else []).
  split.
  { rewrite get_unsynced_batch_eq. destruct (in_int64 batch_size); reflexivity. }
  split.
  { destruct (in_int64 batch_size); [|constructor].
    apply Forall_forall. intros r Hr. apply list_elem_of_In in Hr.
    apply select_unsynced_In in Hr. destruct Hr as [Hin Hu].
    apply unsynced_spec in Hu. tauto. }
  assert (length (select_unsynced batch_size st)
          = Nat.min (Z.to_nat batch_size)
              (length (filter (fun r => unsynced r = true) (rows st)))) as Hlen.
  { unfold select_unsynced, sql_limit.
    assert ((batch_size <? 0) = false) as -> by (apply Z.ltb_ge; lia).
    rewrite length_take. f_equal.
    apply Permutation_length, sort_rows_perm. }
  split.
  { destruct (in_int64 batch_size); [|simpl; lia]. rewrite Hlen. lia. }
  split.
  { destruct (in_int64 batch_size); [|constructor].
    unfold select_unsynced, sql_limit.
    destruct (batch_size <? 0).
    - apply sort_rows_sorted.
    - apply take_sorted, sort_rows_sorted. }
  split.
  { destruct (in_int64 batch_size); [|reflexivity]. split; [reflexivity|exact Hlen]. }
  intros st0 t1 t2 t3 l1 l2 l3 st1 st2 st3 Hempty H1 H2 H3 Hleb.
  apply insert_location_true, insert_location_body_Ok in H1.
  apply insert_location_true, insert_location_body_Ok in H2.
  apply insert_location_true, insert_location_body_Ok in H3.
  destruct H1 as [-> _], H2 as [-> _], H3 as [-> _].
  simpl. rewrite Hempty. simpl.
  eexists _, _, _. split; [reflexivity|].
  repeat (split; [reflexivity|]).
  rewrite get_unsynced_batch_eq.
  change (in_int64 2) with true. cbv iota.
  unfold select_unsynced. simpl rows.
  rewrite !filter_cons_True, filter_nil by reflexivity.
  unfold sort_rows. simpl. unfold order_by. simpl. rewrite Hleb.
  reflexivity.
Qed.

(** C2, witness: the theorem at the three buffered fixes. *)
Lemma get_unsynced_batch_selects_witness :
  0 <= 2
  /\ exists r1 r2 r3,
       rows three_fixes = [r1; r2; r3]
       /\ priority r1 = 0 /\ priority r2 = 0 /\ priority r3 = 5
       /\ get_unsynced_batch 2 three_fixes = [row_to_dict r3; row_to_dict r1].
Proof.
  assert (0 <= 2) as Hpos by lia. split; [exact Hpos|].
  destruct (get_unsynced_batch_selects three_fixes 2 Hpos)
    as (chosen & _ & _ & _ & _ & _ & H).
  apply (H empty_buffer "2024-01-08 12:00:00" "2024-01-08 12:00:10"
           "2024-01-08 12:00:20" gps_fix gps_fix gps_fix
           (step empty_buffer (Insert "2024-01-08 12:00:00" gps_fix 0))
           (step (step empty_buffer (Insert "2024-01-08 12:00:00" gps_fix 0))
              (Insert "2024-01-08 12:00:10" gps_fix 0))).
  - reflexivity.
  - vm_compute. reflexivity.
  - vm_compute. reflexivity.
  - vm_compute. reflexivity.
  - vm_compute. reflexivity.
Defined.

(** ** mark_synced and increment_retry *)

Lemma mapM_bind_int ids :
  mapM bind_int ids = if forallb in_int64 ids then Ok ids else Raised OverflowError.
Proof.
  induction ids as [|i ids IH]; simpl; [reflexivity|].
  unfold bind_int at 1. destruct (in_int64 i); simpl; [|reflexivity].
  rewrite IH. destruct (forallb in_int64 ids); reflexivity.
Qed.

Lemma bind_ids_spec st ids :
  if ids_ok st ids then bind_ids st ids = Ok tt
  else exists e, bind_ids st ids = Raised e.
Proof.
  unfold ids_ok, bind_ids.
  destruct (Z.of_nat (length ids) <=? max_variable_number st) eqn:Hlen.
  - apply Z.leb_le in Hlen.
    assert ((max_variable_number st <? Z.of_nat (length ids)) = false) as ->
      by (apply Z.ltb_ge; lia).
    simpl. rewrite mapM_bind_int.
    destruct (forallb in_int64 ids); simpl; eauto.
  - apply Z.leb_gt in Hlen.
    assert ((max_variable_number st <? Z.of_nat (length ids)) = true) as ->
      by (apply Z.ltb_lt; lia).
    simpl. eauto.
Qed.

Lemma mark_synced_eq commit_ok ids st :
  mark_synced commit_ok ids st
  = if ids_ok st ids then (commit_ok, update_where ids set_synced st)
    else (false, st).
Proof.
  unfold mark_synced, mark_synced_body.
  pose proof (bind_ids_spec st ids) as H.
  destruct (ids_ok st ids); [rewrite H; destruct commit_ok; reflexivity|].
  destruct H as [e ->]. reflexivity.
Qed.

Lemma increment_retry_eq ids st :
  increment_retry ids st
  = if ids_ok st ids then (true, update_where ids add_retry st)
    else (false, st).
Proof.
  unfold increment_retry, increment_retry_body.
  pose proof (bind_ids_spec st ids) as H.
  destruct (ids_ok st ids); [rewrite H; reflexivity|].
  destruct H as [e ->]. reflexivity.
Qed.

Lemma id_in_spec ids r : id_in ids r = true <-> In (rowid r) ids.
Proof.
  unfold id_in. rewrite existsb_exists. split.
  - intros (i & Hi & Heq). apply Z.eqb_eq in Heq. congruence.
  - intros Hi. exists (rowid r). split; [exact Hi|apply Z.eqb_refl].
Qed.


Lemma set_rows_same st : set_rows st (rows st) = st.
Proof. destruct st. reflexivity. Qed.




(** ** Every operation, one step at a time *)

Lemma cleanup_old_data_rows now days vacuum_ok st :
  (cleanup_old_data now days vacuum_ok st).2 = st
  \/ exists cutoff,
       minus_days now days = Ok cutoff
       /\ rows (cleanup_old_data now days vacuum_ok st).2
          = filter (fun r => old_synced (isoformat cutoff) r = false) (rows st)
       /\ seq (cleanup_old_data now days vacuum_ok st).2 = seq st
       /\ max_variable_number (cleanup_old_data now days vacuum_ok st).2
          = max_variable_number st.
Proof.
  unfold cleanup_old_data.
  destruct (minus_days now days) as [e|cutoff]; [left; reflexivity|].
  right. exists cutoff. split; [reflexivity|].
  destruct (0 <? _); [destruct vacuum_ok|]; simpl; auto.
Qed.

Lemma step_seq st o : seq st <= seq (step st o).
Proof.
  destruct o; simpl; try lia.
  - destruct (insert_location current_timestamp location prio st) as [[] st'] eqn:E.
    + apply insert_location_true, insert_location_body_Ok in E.
      destruct E as [-> _]. simpl. lia.
    + apply insert_location_false in E. subst. simpl. lia.
  - rewrite mark_synced_eq. destruct (ids_ok st ids); simpl; lia.
  - rewrite increment_retry_eq. destruct (ids_ok st ids); simpl; lia.
  - destruct (cleanup_old_data_rows now0 days vacuum_ok st) as [->|(c & _ & _ & -> & _)];
      lia.
Qed.

Lemma step_max_variable_number st o :
  max_variable_number (step st o) = max_variable_number st.
Proof.
  destruct o; simpl; try reflexivity.
  - destruct (insert_location current_timestamp location prio st) as [[] st'] eqn:E.
    + apply insert_location_true, insert_location_body_Ok in E.
      destruct E as [-> _]. reflexivity.
    + apply insert_location_false in E. subst. reflexivity.
  - rewrite mark_synced_eq. destruct (ids_ok st ids); reflexivity.
  - rewrite increment_retry_eq. destruct (ids_ok st ids); reflexivity.
  - destruct (cleanup_old_data_rows now0 days vacuum_ok st) as [->|(c & _ & _ & _ & ->)];
      reflexivity.
Qed.

(** Where a row of the next state comes from: it is a row of the
    current state, kept under its id with a retry count that did not
    decrease and a synced flag that did not go back, or it is the row
    the step inserted, unsynced, under a fresh id. *)
Lemma step_origin st o r' :
  In r' (rows (step st o)) ->
  (exists r, In r (rows st) /\ rowid r' = rowid r
             /\ (synced r = true -> synced r' = true)
             /\ retry_count r <= retry_count r')
  \/ (rowid r' = seq st + 1 /\ synced r' = false /\ retry_count r' = 0
      /\ seq (step st o) = seq st + 1).
Proof.
  assert (forall r, In r (rows st) ->
            exists r0, In r0 (rows st) /\ rowid r = rowid r0
                       /\ (synced r0 = true -> synced r = true)
                       /\ retry_count r0 <= retry_count r) as Hsame.
  { intros r Hr. exists r. repeat split; auto. lia. }
  destruct o; simpl; intros Hin; try (left; auto; fail).
  - destruct (insert_location current_timestamp location prio st) as [[] st'] eqn:E.
    + apply insert_location_true, insert_location_body_Ok in E.
      destruct E as [-> _]. simpl in *. apply in_app_or in Hin.
      destruct Hin as [Hin|[<-|[]]]; [left; auto|].
      right. simpl. auto.
    + apply insert_location_false in E. subst. left. auto.
  - rewrite mark_synced_eq in Hin. destruct (ids_ok st ids); simpl in Hin;
      [|left; auto].
    apply in_map_iff in Hin. destruct Hin as (r & <- & Hr).
    left. exists r. destruct (id_in ids r); simpl; repeat split; auto; lia.
  - rewrite increment_retry_eq in Hin. destruct (ids_ok st ids); simpl in Hin;
      [|left; auto].
    apply in_map_iff in Hin. destruct Hin as (r & <- & Hr).
    left. exists r. destruct (id_in ids r); simpl; repeat split; auto; lia.
  - destruct (cleanup_old_data_rows now0 days vacuum_ok st)
      as [Heq|(c & _ & Heq & _)]; rewrite Heq in Hin; [left; auto|].
    apply list_elem_of_In, list_elem_of_filter in Hin.
    destruct Hin as [_ Hin]. apply list_elem_of_In in Hin. left. auto.
Qed.

Lemma step_bounded st o :
  Forall (fun r => rowid r <= seq st) (rows st) ->
  Forall (fun r => rowid r <= seq (step st o)) (rows (step st o)).
Proof.
  intros Hb. apply Forall_forall. intros r' Hr'. apply list_elem_of_In in Hr'.
  pose proof (step_seq st o) as Hseq.
  destruct (step_origin st o r' Hr') as [(r & Hr & Hid & _)|(Hid & _ & _ & Hs)].
  - rewrite Forall_forall in Hb. apply list_elem_of_In, Hb in Hr. lia.
  - lia.
Qed.

Lemma NoDup_map_filter {A B} (f : A -> B) (P : A -> Prop)
    `{forall x, Decision (P x)} (l : list A) :
  NoDup (map f l) -> NoDup (map f (filter P l)).
Proof.
  induction l as [|x l IH]; simpl; [auto|].
  rewrite NoDup_cons. intros [Hx Hl].
  rewrite filter_cons. destruct (decide (P x)); [|auto].
  simpl. apply NoDup_cons. split; [|auto].
  intros Hin. apply Hx. apply list_elem_of_In, in_map_iff in Hin.
  destruct Hin as (y & <- & Hy). apply list_elem_of_In, in_map.
  apply list_elem_of_In, list_elem_of_filter in Hy.
  apply list_elem_of_In. tauto.
Qed.

Lemma map_rowid_update ids f l :
  (forall r, rowid (f r) = rowid r) ->
  map rowid (map (fun r => if id_in ids r then f r else r) l) = map rowid l.
Proof.
  intros Hf. induction l as [|r l IH]; simpl; [reflexivity|].
  rewrite IH. destruct (id_in ids r); [rewrite Hf|]; reflexivity.
Qed.

Lemma step_wf st o : wf st -> wf (step st o).
Proof.
  intros (Hnd & Hb & Hrc). split; [|split; [apply step_bounded; exact Hb|]].
  2:{ apply Forall_forall. intros r' Hr'. apply list_elem_of_In in Hr'.
      destruct (step_origin st o r' Hr') as [(r & Hin & _ & _ & Hle)|(_ & _ & H0 & _)];
        [|lia].
      rewrite Forall_forall in Hrc. apply list_elem_of_In, Hrc in Hin. lia. }
  destruct o; simpl; auto.
  - destruct (insert_location current_timestamp location prio st) as [[] st'] eqn:E.
    + apply insert_location_true, insert_location_body_Ok in E.
      destruct E as [-> _]. simpl. rewrite map_app. simpl.
      apply NoDup_app. split; [exact Hnd|]. split; [|apply NoDup_singleton].
      intros i Hi Hi'. apply list_elem_of_In in Hi'. simpl in Hi'.
      destruct Hi' as [<-|[]].
      apply list_elem_of_In, in_map_iff in Hi. destruct Hi as (r & Hid & Hr).
      rewrite Forall_forall in Hb. apply list_elem_of_In, Hb in Hr. lia.
    + apply insert_location_false in E. subst. exact Hnd.
  - rewrite mark_synced_eq. destruct (ids_ok st ids); simpl; [|exact Hnd].
    rewrite map_rowid_update; [exact Hnd|reflexivity].
  - rewrite increment_retry_eq. destruct (ids_ok st ids); simpl; [|exact Hnd].
    rewrite map_rowid_update; [exact Hnd|reflexivity].
  - destruct (cleanup_old_data_rows now0 days vacuum_ok st)
      as [->|(c & _ & -> & _)]; [exact Hnd|].
    apply NoDup_map_filter. exact Hnd.
Qed.

Lemma run_wf ops : forall st, wf st -> wf (run ops st).
Proof.
  induction ops as [|o ops IH]; intros st H; simpl; [exact H|].
  apply IH, step_wf, H.
Qed.

Lemma wf_empty_buffer : wf empty_buffer.
Proof. repeat split; simpl; constructor. Qed.

Lemma wf_three_fixes : wf three_fixes.
Proof. apply run_wf, wf_empty_buffer. Qed.

(** ** Facts about an id that no operation undoes *)

Lemma step_kept_under (P : row -> Prop) i st o :
  (forall r r', (synced r = true -> synced r' = true) ->
                retry_count r <= retry_count r' -> P r -> P r') ->
  kept_under P i st -> kept_under P i (step st o).
Proof.
  intros Hmono [Hseq HP]. pose proof (step_seq st o) as Hle.
  split; [lia|]. intros r' Hr' Hid.
  destruct (step_origin st o r' Hr') as [(r & Hr & Hid' & Hs & Hc)|(Hnew & _)].
  - apply (Hmono r r' Hs Hc). apply HP; [exact Hr|congruence].
  - lia.
Qed.

Lemma run_kept_under (P : row -> Prop) i ops :
  (forall r r', (synced r = true -> synced r' = true) ->
                retry_count r <= retry_count r' -> P r -> P r') ->
  forall st, kept_under P i st -> kept_under P i (run ops st).
Proof.
  intros Hmono. induction ops as [|o ops IH]; intros st H; simpl; [exact H|].
  apply IH, step_kept_under; assumption.
Qed.

Lemma wf_id_bound st i : wf st -> In i (map rowid (rows st)) -> i <= seq st.
Proof.
  intros (_ & Hb & _) Hi. apply in_map_iff in Hi. destruct Hi as (r & <- & Hr).
  rewrite Forall_forall in Hb. apply list_elem_of_In, Hb in Hr. exact Hr.
Qed.

Lemma not_selected_when batch_size st i (P : row -> Prop) :
  (forall r, P r -> unsynced r = false) ->
  kept_under P i st ->
  Forall (fun r => rowid r <> i) (select_unsynced batch_size st).
Proof.
  intros HP [_ Hk]. apply Forall_forall. intros r Hr. apply list_elem_of_In in Hr.
  apply select_unsynced_In in Hr. destruct Hr as [Hin Hu].
  intros Hid. specialize (HP r (Hk r Hin Hid)). congruence.
Qed.

Lemma NoDup_map_inj {A B} (f : A -> B) (l : list A) x y :
  NoDup (map f l) -> In x l -> In y l -> f x = f y -> x = y.
Proof.
  induction l as [|a l IH]; simpl; [tauto|].
  rewrite NoDup_cons. intros [Ha Hl] [->|Hx] [->|Hy] Heq; auto.
  - exfalso. apply Ha. rewrite Heq. apply list_elem_of_In, in_map, Hy.
  - exfalso. apply Ha. rewrite <- Heq. apply list_elem_of_In, in_map, Hx.
Qed.

Lemma mark_synced_kept commit_ok ids i st :
  ids_ok st ids = true -> In i ids -> i <= seq st ->
  kept_under (fun r => synced r = true) i (mark_synced commit_ok ids st).2.
Proof.
  rewrite mark_synced_eq. destruct (ids_ok st ids); simpl; [|discriminate].
  intros _ Hi Hseq. split; [exact Hseq|].
  intros r' Hr' Hid. apply in_map_iff in Hr'. destruct Hr' as (r & <- & Hr).
  destruct (id_in ids r) eqn:E; [reflexivity|].
  simpl in Hid. subst i. apply id_in_spec in Hi. congruence.
Qed.

(** C3: on a table built by the operations, whatever operations follow
    (insert_location, get_unsynced_batch, mark_synced, increment_retry,
    cleanup_old_data, get_stats), a synced row is never unsynced again:
    any later row under its id is synced.  So once [mark_synced]
    succeeded on a list holding the id of a stored row, no later
    [get_unsynced_batch], with any limit, selects a row with that id. *)
Theorem synced_is_terminal (st : DataBuffer) (ops : list op) :
  wf st ->
  (forall r r',
     In r (rows st) -> synced r = true ->
     In r' (rows (run ops st)) -> rowid r' = rowid r -> synced r' = true)
  /\ (forall commit_ok ids i batch_size,
        (mark_synced commit_ok ids st).1 = true -> In i ids ->
        In i (map rowid (rows st)) ->
        Forall (fun r => rowid r <> i)
               (select_unsynced batch_size
                  (run ops (mark_synced commit_ok ids st).2))
        /\ get_unsynced_batch batch_size
             (run ops (mark_synced commit_ok ids st).2)
           = (if in_int64 batch_size
              then map row_to_dict
                     (select_unsynced batch_size
                        (run ops (mark_synced commit_ok ids st).2))
              else [])).
Proof.
  intros Hwf.
  assert (forall r r' : row, (synced r = true -> synced r' = true) ->
            retry_count r <= retry_count r' ->
            synced r = true -> synced r' = true) as Hmono by auto.
  split.
  - intros r r' Hr Hs Hr' Hid.
    assert (kept_under (fun x => synced x = true) (rowid r) st) as Hk.
    { split; [apply wf_id_bound; [exact Hwf|apply in_map; exact Hr]|].
      intros x Hx Hxid. destruct Hwf as (Hnd & _ & _).
      rewrite (NoDup_map_inj rowid (rows st) x r Hnd Hx Hr Hxid). exact Hs. }
    apply (run_kept_under _ _ ops Hmono) in Hk. destruct Hk as [_ Hk].
    apply Hk; assumption.
  - intros commit_ok ids i batch_size Hok Hi Hin.
    split; [|apply get_unsynced_batch_eq].
    apply (not_selected_when _ _ _ (fun r => synced r = true)).
    + intros r Hr. unfold unsynced. rewrite Hr. reflexivity.
    + apply (run_kept_under _ _ ops Hmono).
      apply mark_synced_kept; [|exact Hi|].
      * rewrite mark_synced_eq in Hok.
        destruct (ids_ok st ids); [reflexivity|discriminate].
      * apply wf_id_bound; assumption.
Qed.

(** C3, witness: row 1 of the three fixes, once marked, is not selected
    after a failed-sync round, a sweep and two more inserts. *)
Lemma synced_is_terminal_witness :
  Forall (fun r => rowid r <> 1)
    (select_unsynced 10
       (run [IncrementRetry [1; 2];
             Insert "2024-01-08 12:00:30" gps_fix 9;
             MarkSynced true [2];
             Insert "2024-01-08 12:00:40" gps_fix 0]
          (mark_synced true [1] three_fixes).2)).
Proof.
  apply (synced_is_terminal three_fixes _ wf_three_fixes).
  - vm_compute. reflexivity.
  - simpl. auto.
  - vm_compute. auto.
Defined.

(** ** get_stats and the retry limit *)

Lemma increment_retry_rowids ids st :
  map rowid (rows (increment_retry ids st).2) = map rowid (rows st).
Proof.
  rewrite increment_retry_eq. destruct (ids_ok st ids); simpl; [|reflexivity].
  apply map_rowid_update. reflexivity.
Qed.

Lemma increment_retry_kept k i ids st :
  ids_ok st ids = true -> In i ids ->
  kept_under (fun r => k <= retry_count r) i st ->
  kept_under (fun r => k + 1 <= retry_count r) i (increment_retry ids st).2.
Proof.
  intros Hok Hi [Hseq Hk]. rewrite increment_retry_eq, Hok. simpl.
  split; [exact Hseq|]. intros r' Hr' Hid.
  apply in_map_iff in Hr'. destruct Hr' as (r & <- & Hr).
  destruct (id_in ids r) eqn:E; simpl in *.
  - specialize (Hk r Hr Hid). lia.
  - subst i. apply id_in_spec in Hi. congruence.
Qed.

Lemma increments_kept idss : forall k i st,
  Forall (fun ids => In i ids /\ ids_ok st ids = true) idss ->
  kept_under (fun r => k <= retry_count r) i st ->
  kept_under (fun r => k + Z.of_nat (length idss) <= retry_count r) i
             (run (map IncrementRetry idss) st)
  /\ map rowid (rows (run (map IncrementRetry idss) st)) = map rowid (rows st).
Proof.
  induction idss as [|ids idss IH]; intros k i st Hall Hk; simpl.
  - split; [|reflexivity]. destruct Hk as [Hseq Hk]. split; [exact Hseq|].
    intros r Hr Hid. specialize (Hk r Hr Hid). lia.
  - apply Forall_cons in Hall. destruct Hall as [[Hi Hok] Hall].
    destruct (IH (k + 1) i (increment_retry ids st).2) as [IH1 IH2].
    + eapply Forall_impl; [exact Hall|]. intros ids' [Hi' Hok']. split; [exact Hi'|].
      unfold ids_ok in *.
      pose proof (step_max_variable_number st (IncrementRetry ids)) as Hm.
      simpl in Hm. rewrite Hm. exact Hok'.
    + apply increment_retry_kept; assumption.
    + split; [|rewrite IH2; apply increment_retry_rowids].
      destruct IH1 as [Hseq IH1]. split; [exact Hseq|].
      intros r Hr Hid. specialize (IH1 r Hr Hid). lia.
Qed.

(** C7, counterexample: the dictionary [get_stats] returns has no key
    [pending] and no key [dead_lettered]. *)
Lemma get_stats_has_no_pending_key :
  get_stats 3 4096 three_fixes !! "pending" = None
  /\ get_stats 3 4096 three_fixes !! "dead_lettered" = None
  /\ dom (get_stats 3 4096 three_fixes)
     <> ({["total"; "pending"; "dead_lettered"; "size_bytes"]} : gset string).
Proof.
  assert (get_stats 3 4096 three_fixes !! "pending" = None) as H
    by (vm_compute; reflexivity).
  split; [exact H|]. split; [vm_compute; reflexivity|].
  intros Hdom. apply not_elem_of_dom in H. apply H. rewrite Hdom.
  set_solver.
Qed.

(** C7, amended: [get_stats] returns the keys total, unsynced, failed
    and size_bytes: the number of rows, of rows not synced, of rows with
    a retry count of 5 or more, and the size of the file.  When
    [increment_retry] has succeeded five times on lists holding the id of
    a stored row, that row is among those [failed] counts, and no later
    [get_unsynced_batch], whatever operations come in between, selects
    it. *)
Theorem get_stats_keys_and_failed (st : DataBuffer) (page_count page_size : Z) :
  dom (get_stats page_count page_size st)
    = ({["total"; "unsynced"; "failed"; "size_bytes"]} : gset string)
  /\ get_stats page_count page_size st !! "total"
     = Some (Z.of_nat (length (rows st)))
  /\ get_stats page_count page_size st !! "unsynced"
     = Some (count_rows (fun r => negb (synced r)) st)
  /\ get_stats page_count page_size st !! "failed"
     = Some (count_rows (fun r => 5 <=? retry_count r) st)
  /\ get_stats page_count page_size st !! "size_bytes"
     = Some (page_count * page_size)
  /\ (forall i idss ops batch_size,
        wf st -> In i (map rowid (rows st)) ->
        length idss = 5%nat ->
        Forall (fun ids => In i ids /\ ids_ok st ids = true) idss ->
        let st5 := run (map IncrementRetry idss) st in
        (exists r, In r (rows st5) /\ rowid r = i
                   /\ (5 <=? retry_count r) = true)
        /\ (exists n, get_stats page_count page_size st5 !! "failed" = Some n
                      /\ 1 <= n)
        /\ Forall (fun r => rowid r <> i)
                  (select_unsynced batch_size (run ops st5))).
Proof.
  split.
  { unfold get_stats. rewrite !dom_insert_L, dom_empty_L. set_solver. }
  split.
  { unfold get_stats, count_rows. simplify_map_eq.
    do 2 f_equal. induction (rows st) as [|r l IH]; [reflexivity|].
    rewrite filter_cons_True by reflexivity. simpl. congruence. }
  split; [unfold get_stats; simplify_map_eq; reflexivity|].
  split; [unfold get_stats; simplify_map_eq; reflexivity|].
  split; [unfold get_stats; simplify_map_eq; reflexivity|].
  intros i idss ops batch_size Hwf Hi Hlen Hall st5.
  assert (kept_under (fun r => 0 <= retry_count r) i st) as Hk0.
  { split; [apply wf_id_bound; assumption|].
    intros r Hr _. destruct Hwf as (_ & _ & Hrc).
    rewrite Forall_forall in Hrc. apply Hrc, list_elem_of_In, Hr. }
  destruct (increments_kept idss 0 i st Hall Hk0) as [Hk Hids].
  rewrite Hlen in Hk. fold st5 in Hk, Hids.
  assert (exists r, In r (rows st5) /\ rowid r = i
                    /\ (5 <=? retry_count r) = true) as (r & Hr & Hid & H5).
  { rewrite <- Hids in Hi. apply in_map_iff in Hi. destruct Hi as (r & Hid & Hr).
    exists r. repeat split; auto. apply Z.leb_le.
    destruct Hk as [_ Hk]. specialize (Hk r Hr Hid). lia. }
  split; [eauto|]. split.
  - eexists. split; [unfold get_stats; simplify_map_eq; reflexivity|].
    unfold count_rows.
    assert (r ∈ filter (fun r => (5 <=? retry_count r) = true) (rows st5)) as Hf
      by (apply list_elem_of_filter; split; [exact H5|apply list_elem_of_In, Hr]).
    destruct (filter _ (rows st5)); [inversion Hf|]. simpl length. lia.
  - apply (not_selected_when _ _ _ (fun r => 0 + Z.of_nat 5 <= retry_count r)).
    + intros x Hx. unfold unsynced.
      assert ((retry_count x <? 5) = false) as -> by (apply Z.ltb_ge; lia).
      apply andb_false_r.
    + apply run_kept_under; [|exact Hk]. intros; lia.
Qed.

(** C7, witness: five failed rounds on row 2 of the three fixes. *)
Lemma get_stats_keys_and_failed_witness :
  let st5 := run (map IncrementRetry [[2]; [1; 2]; [2; 3]; [2]; [2]]) three_fixes in
  (exists r, In r (rows st5) /\ rowid r = 2 /\ (5 <=? retry_count r) = true)
  /\ (exists n, get_stats 3 4096 st5 !! "failed" = Some n /\ 1 <= n)
  /\ Forall (fun r => rowid r <> 2)
            (select_unsynced 10 (run [Insert "2024-01-08 12:01:00" gps_fix 7] st5)).
Proof.
  apply (get_stats_keys_and_failed three_fixes 3 4096).
  - exact wf_three_fixes.
  - vm_compute. auto.
  - reflexivity.
  - repeat (constructor;
            [split; [simpl; auto 10|vm_compute; reflexivity]|]).
    constructor.
Defined.

(** ** The contract of insert_location *)

Lemma bind_value_eq v :
  bind_value v = if bindable v then Ok (bound v) else Raised OverflowError.
Proof.
  unfold bind_value, bound, bindable, ret, raise.
  destruct v; try reflexivity. destruct (is_nan bits); reflexivity.
Qed.

Lemma not_null_eq v :
  not_null v = if is_none v then Raised IntegrityError else Ok v.
Proof. destruct v; reflexivity. Qed.

Lemma get_eq location k d :
  get location k d = match location !! k with Some v => v | None => d end.
Proof. reflexivity. Qed.

Ltac insert_step :=
  match goal with
  | |- context [bind_value ?v] =>
      rewrite (bind_value_eq v); destruct (bindable v); simpl;
      [|reflexivity]
  | |- context [not_null ?v] =>
      rewrite (not_null_eq v); destruct (is_none v); simpl;
      [reflexivity|]
  end.

(** [insert_location] as a function of its inputs. *)
Lemma insert_location_eq ts location prio st :
  insert_location ts location prio st
  = if insertable location prio st
    then (true,
          {| rows := rows st
                     ++ [inserted_row (conversions st) ts location prio
                           (seq st + 1)];
             seq := seq st + 1;
             max_variable_number := max_variable_number st;
             conversions := conversions st;
             vacuums := vacuums st |})
    else (false, st).
Proof.
  unfold insert_location, insert_location_body, insertable, inserted_row,
    stored_text, stored_real, stored_integer, is_null,
    compress_json, getitem, bind_int.
  rewrite (get_eq location "latitude"), (get_eq location "longitude").
  generalize (get location "device_id" (VStr "unknown")) as dev.
  generalize (get location "speed" (VInt 0)) as spd.
  generalize (get location "heading" (VInt 0)) as hdg.
  generalize (get location "altitude" (VInt 0)) as alt.
  generalize (get location "satellites" (VInt 0)) as sat.
  generalize (get location "hdop" (VInt 0)) as hdp.
  intros hdp sat alt hdg spd dev.
  destruct (dict_truthy (extra_data location)); simpl;
    [destruct (forallb _ _); simpl; [|reflexivity]|];
    (destruct (location !! "latitude") as [lat|]; simpl; [|reflexivity]);
    (destruct (location !! "longitude") as [lon|]; simpl; [|reflexivity]);
    do 8 insert_step;
    (destruct (in_int64 prio); simpl; [|reflexivity]);
    do 3 insert_step;
    rewrite Z.leb_antisym; destruct (seq st <? int64_max); reflexivity.
Qed.

Lemma is_core_key_spec k : is_core_key k = true <-> In k core_keys.
Proof.
  unfold is_core_key. rewrite existsb_exists. split.
  - intros (x & Hx & Heq). apply String.eqb_eq in Heq. congruence.
  - intros H. exists k. split; [exact H|apply String.eqb_refl].
Qed.

Lemma extra_data_lookup location k v :
  extra_data location !! k = Some v
  <-> location !! k = Some v /\ ~ In k core_keys.
Proof.
  unfold extra_data. rewrite map_lookup_filter_Some. simpl.
  pose proof (is_core_key_spec k) as [H1 H2].
  destruct (is_core_key k).
  - specialize (H1 eq_refl). split; [intros [_ H]; discriminate|tauto].
  - split; [|tauto]. intros [H _]. split; [exact H|].
    intros Hin. specialize (H2 Hin). discriminate.
Qed.

(** C4, counterexample: a second fix is stored under the id 2 and the
    call returns [True], which is not that id even read as an integer;
    a location without latitude makes the call return [False], an
    ordinary return with the store unchanged. *)
Lemma insert_location_returns_flag :
  (insert_location "2024-01-08 12:00:10" gps_fix 0 one_fix).1 = true
  /\ map rowid (rows (insert_location "2024-01-08 12:00:10" gps_fix 0 one_fix).2)
     = [1; 2]
  /\ bool_as_int (insert_location "2024-01-08 12:00:10" gps_fix 0 one_fix).1
     <> 2
  /\ insert_location "2024-01-08 12:00:10" (delete "latitude" gps_fix) 0 one_fix
     = (false, one_fix).
Proof.
  assert ((insert_location "2024-01-08 12:00:10" gps_fix 0 one_fix).1 = true)
    as H by (vm_compute; reflexivity).
  split; [exact H|]. split; [vm_compute; reflexivity|].
  split; [rewrite H; simpl; lia|]. vm_compute. reflexivity.
Qed.

(** What [insertable] asks of the NOT NULL columns. *)
Lemma insertable_true location prio st :
  insertable location prio st = true ->
  exists lat lon,
    location !! "latitude" = Some lat /\ location !! "longitude" = Some lon
    /\ is_null lat = false /\ is_null lon = false
    /\ is_null (get location "device_id" (VStr "unknown")) = false.
Proof.
  unfold insertable. intros H. apply andb_true_iff in H. destruct H as [_ H].
  destruct (location !! "latitude") as [lat|]; [|discriminate].
  destruct (location !! "longitude") as [lon|]; [|discriminate].
  repeat (apply andb_true_iff in H; destruct H as [H ?]).
  exists lat, lon.
  repeat match goal with
         | H : negb _ = true |- _ => apply negb_true_iff in H
         end.
  auto.
Qed.

(** C4, amended: [insert_location] returns [True] when it stored the
    record and [False] otherwise, with the store unchanged; it returns
    no id and raises nothing.  It returns [False] whenever latitude or
    longitude is missing, and whenever latitude, longitude or device_id
    is None or a NaN.  On [True] the new row is appended under the next
    id with the given priority, unsynced, with retry count 0; latitude,
    longitude, speed, heading, altitude and hdop hold what a REAL column
    stores for the given value, satellites what an INTEGER column
    stores and device_id what a TEXT column stores, with 0 for an absent
    speed, heading, altitude, satellites or hdop, that is 0.0 in a REAL
    column; a float that is no NaN is stored as it is, but for the sign
    of a zero, and a text device id as it is; and every attribute
    whose key is not latitude, longitude, speed, heading or timestamp is
    kept in the compressed blob. *)
Theorem insert_location_contract (ts : string) (location : dict) (prio : Z)
    (st : DataBuffer) :
  let out := insert_location ts location prio st in
  let lib := conversions st in
  out.1 = insertable location prio st
  /\ ((location !! "latitude" = None \/ location !! "longitude" = None) ->
      out = (false, st))
  /\ (forall k v,
        k = "latitude" \/ k = "longitude" \/ k = "device_id" ->
        location !! k = Some v -> is_null v = true ->
        out = (false, st))
  /\ (if out.1 then
        exists r lat lon,
          rows out.2 = rows st ++ [r] /\ seq out.2 = seq st + 1
          /\ rowid r = seq st + 1 /\ timestamp r = ts /\ priority r = prio
          /\ synced r = false /\ retry_count r = 0
          /\ location !! "latitude" = Some lat
          /\ latitude r = stored_real lib lat
          /\ location !! "longitude" = Some lon
          /\ longitude r = stored_real lib lon
          /\ device_id r
             = stored_text lib (default (VStr "unknown") (location !! "device_id"))
          /\ speed r = stored_real lib (default (VInt 0) (location !! "speed"))
          /\ heading r
             = stored_real lib (default (VInt 0) (location !! "heading"))
          /\ altitude r
             = stored_real lib (default (VInt 0) (location !! "altitude"))
          /\ satellites r
             = stored_integer lib (default (VInt 0) (location !! "satellites"))
          /\ hdop r = stored_real lib (default (VInt 0) (location !! "hdop"))
          /\ compressed_data r
             = (if dict_truthy (extra_data location)
                then Some (Gz (extra_data location)) else None)
      else out.2 = st)
  /\ (forall k v, extra_data location !! k = Some v
                  <-> location !! k = Some v /\ ~ In k core_keys)
  /\ stored_real lib (VInt 0) = VFloat 0
  /\ stored_integer lib (VInt 0) = VInt 0
  /\ (forall bits, is_nan bits = false ->
        stored_real lib (VFloat bits)
        = VFloat (if is_zero bits then 0 else bits))
  /\ (forall s, stored_text lib (VStr s) = VStr s).
Proof.
  intros out lib. subst out lib. rewrite insert_location_eq.
  split; [destruct (insertable location prio st); reflexivity|].
  split.
  { intros Hmiss. unfold insertable.
    destruct Hmiss as [-> | ->]; [rewrite andb_false_r; reflexivity|].
    destruct (location !! "latitude"); rewrite andb_false_r; reflexivity. }
  split.
  { intros k v Hk Hv Hnull.
    destruct (insertable location prio st) eqn:Hins; [|reflexivity].
    apply insertable_true in Hins.
    destruct Hins as (lat & lon & Hlat & Hlon & Hnlat & Hnlon & Hndev).
    unfold get in Hndev.
    destruct Hk as [-> | [-> | ->]]; rewrite Hv in *; simplify_eq; congruence. }
  split.
  { destruct (insertable location prio st) eqn:Hins; simpl; [|reflexivity].
    apply insertable_true in Hins.
    destruct Hins as (lat & lon & Hlat & Hlon & _).
    exists (inserted_row (conversions st) ts location prio (seq st + 1)),
      lat, lon.
    unfold inserted_row, get; simpl. rewrite Hlat, Hlon.
    repeat split; try reflexivity;
      match goal with |- context [location !! ?k] =>
        destruct (location !! k); reflexivity end. }
  split; [apply extra_data_lookup|].
  split; [reflexivity|]. split; [reflexivity|]. split.
  - intros bits Hnan. unfold stored_real, bound. rewrite Hnan. reflexivity.
  - reflexivity.
Qed.

(** C4, witness: a location without longitude and a location with a
    NaN for its latitude, on the buffer of one fix. *)
Lemma insert_location_contract_witness :
  insert_location "2024-01-08 12:00:10" (delete "longitude" gps_fix) 5 one_fix
  = (false, one_fix)
  /\ insert_location "2024-01-08 12:00:10" fix_with_nan 5 one_fix
     = (false, one_fix).
Proof.
  split.
  - apply (insert_location_contract "2024-01-08 12:00:10"
             (delete "longitude" gps_fix) 5 one_fix).
    right. vm_compute. reflexivity.
  - assert (fix_with_nan !! "latitude" = Some (VFloat 9221120237041090560))
      as Hlat by (vm_compute; reflexivity).
    assert (is_null (VFloat 9221120237041090560) = true)
      as Hnan by (vm_compute; reflexivity).
    exact (proj1 (proj2 (proj2
             (insert_location_contract "2024-01-08 12:00:10" fix_with_nan 5
                one_fix)))
             "latitude" (VFloat 9221120237041090560)
             (or_introl eq_refl) Hlat Hnan).
Defined.

(** ** Reading back what was inserted *)

Lemma sql_limit_all {A} n (l : list A) :
  n < 0 \/ Z.of_nat (length l) <= n -> sql_limit n l = l.
Proof.
  unfold sql_limit. intros H. destruct (n <? 0) eqn:E; [reflexivity|].
  apply Z.ltb_ge in E. apply take_ge. lia.
Qed.

(** The row just inserted is the only row under its id, and a batch
    large enough for all unsynced rows contains its dictionary. *)
Lemma inserted_row_selected ts location prio st batch_size :
  wf st -> insertable location prio st = true ->
  let st' := (insert_location ts location prio st).2 in
  let r := inserted_row (conversions st) ts location prio (seq st + 1) in
  rows st' = rows st ++ [r]
  /\ (forall r', In r' (select_unsynced batch_size st') ->
                 rowid r' = seq st + 1 -> r' = r)
  /\ (in_int64 batch_size = true ->
      batch_size < 0 \/ count_rows unsynced st' <= batch_size ->
      In r (select_unsynced batch_size st')
      /\ In (row_to_dict r) (get_unsynced_batch batch_size st')).
Proof.
  intros Hwf Hins st' r. subst st'. rewrite insert_location_eq, Hins. simpl.
  split; [reflexivity|]. split.
  - intros r' Hr' Hid. apply select_unsynced_In in Hr'. destruct Hr' as [Hr' _].
    simpl in Hr'. apply in_app_or in Hr'. destruct Hr' as [Hr'|[<-|[]]];
      [|reflexivity].
    destruct Hwf as (_ & Hb & _). rewrite Forall_forall in Hb.
    apply list_elem_of_In, Hb in Hr'. lia.
  - intros Hn Hbig.
    assert (In r (select_unsynced batch_size
                    {| rows := rows st ++ [r]; seq := seq st + 1;
                       max_variable_number := max_variable_number st;
                       conversions := conversions st;
                       vacuums := vacuums st |})) as Hsel.
    { unfold select_unsynced. rewrite sql_limit_all.
      - apply (Permutation_in _ (Permutation_sym (sort_rows_perm _))).
        apply list_elem_of_In, list_elem_of_filter. split; [reflexivity|].
        simpl. apply list_elem_of_In, in_or_app. right. left. reflexivity.
      - destruct Hbig as [Hneg|Hcnt]; [left; exact Hneg|right].
        rewrite (Permutation_length (sort_rows_perm _)). exact Hcnt. }
    split; [exact Hsel|].
    rewrite get_unsynced_batch_eq, Hn. apply in_map. exact Hsel.
Qed.

Lemma row_to_dict_extra r extra k v :
  compressed_data r = Some (Gz extra) -> extra !! k = Some v ->
  row_to_dict r !! k = Some v.
Proof.
  intros Hc Hk. unfold row_to_dict. rewrite Hc. simpl.
  apply lookup_union_Some_l. exact Hk.
Qed.

Lemma inserted_row_blob lib ts location prio i k v :
  location !! k = Some v -> ~ In k core_keys ->
  compressed_data (inserted_row lib ts location prio i)
    = Some (Gz (extra_data location))
  /\ extra_data location !! k = Some v.
Proof.
  intros Hk Hcore.
  assert (extra_data location !! k = Some v) as Hx
    by (apply extra_data_lookup; auto).
  split; [|exact Hx]. simpl. unfold dict_truthy.
  destruct (bool_decide_reflect (extra_data location = ∅)) as [Hempty|_];
    [|reflexivity].
  rewrite Hempty, lookup_empty in Hx. discriminate.
Qed.

(** C9: when [insert_location] has stored a location, every attribute
    of it whose key is not latitude, longitude, speed, heading or
    timestamp (as [heading_raw] with the value "123.4") is found, under
    the same key with the same value, in the dictionary that
    [get_unsynced_batch] builds from the new row after compressing on
    write and decompressing on read; and [get_unsynced_batch] returns
    that dictionary whenever its limit leaves room for all unsynced
    rows. *)
Theorem extra_attributes_round_trip (ts : string) (location : dict)
    (prio : Z) (st : DataBuffer) (k : string) (v : value) :
  wf st ->
  (insert_location ts location prio st).1 = true ->
  location !! k = Some v -> ~ In k core_keys ->
  let st' := (insert_location ts location prio st).2 in
  exists r,
    rows st' = rows st ++ [r] /\ rowid r = seq st + 1
    /\ compressed_data r = Some (Gz (extra_data location))
    /\ row_to_dict r !! k = Some v
    /\ (forall batch_size r',
          In r' (select_unsynced batch_size st') -> rowid r' = rowid r ->
          row_to_dict r' !! k = Some v)
    /\ (forall batch_size,
          in_int64 batch_size = true ->
          batch_size < 0 \/ count_rows unsynced st' <= batch_size ->
          exists d, In d (get_unsynced_batch batch_size st')
                    /\ d = row_to_dict r /\ d !! k = Some v).
Proof.
  intros Hwf Hok Hk Hcore st'.
  assert (insertable location prio st = true) as Hins.
  { rewrite insert_location_eq in Hok.
    destruct (insertable location prio st); [reflexivity|discriminate]. }
  destruct (inserted_row_blob (conversions st) ts location prio (seq st + 1) k v
              Hk Hcore)
    as [Hblob Hx].
  pose proof (row_to_dict_extra _ _ k v Hblob Hx) as Hd.
  exists (inserted_row (conversions st) ts location prio (seq st + 1)).
  destruct (inserted_row_selected ts location prio st 0 Hwf Hins) as (Hrows & _ & _).
  split; [exact Hrows|]. split; [reflexivity|]. split; [exact Hblob|].
  split; [exact Hd|]. split.
  - intros batch_size r' Hr' Hid.
    destruct (inserted_row_selected ts location prio st batch_size Hwf Hins)
      as (_ & Huniq & _).
    rewrite (Huniq r' Hr' Hid). exact Hd.
  - intros batch_size Hn Hbig.
    destruct (inserted_row_selected ts location prio st batch_size Hwf Hins)
      as (_ & _ & Hret).
    destruct (Hret Hn Hbig) as [_ Hin]. eauto.
Qed.

(** C9, witness: a fix with [heading_raw] = "123.4" buffered after the
    three fixes and read back with the limit 10. *)
Lemma extra_attributes_round_trip_witness :
  exists d,
    In d (get_unsynced_batch 10
            (insert_location "2024-01-08 12:00:30" fix_with_extra 0 three_fixes).2)
    /\ d !! "heading_raw" = Some (VStr "123.4").
Proof.
  destruct (extra_attributes_round_trip "2024-01-08 12:00:30" fix_with_extra 0
              three_fixes "heading_raw" (VStr "123.4") wf_three_fixes)
    as (r & _ & _ & _ & _ & _ & H).
  - vm_compute. reflexivity.
  - vm_compute. reflexivity.
  - vm_compute. intuition discriminate.
  - destruct (H 10) as (d & Hd & _ & Hk).
    + reflexivity.
    + right. vm_compute. discriminate.
    + exists d. split; assumption.
Defined.

(** C10: when the location given to [insert_location] has one of the
    keys id, device_id, altitude, satellites or hdop, that key and its
    value are stored in the compressed blob, and the dictionary
    [get_unsynced_batch] builds from the new row reports that value
    under the key, because the decompressed extras are applied over the
    column values; without a blob the dictionary reports the columns.
    In particular an [id] attribute that differs from the rowid replaces
    the id the store assigned. *)
Theorem extra_shadows_columns (ts : string) (location : dict) (prio : Z)
    (st : DataBuffer) (k : string) (v : value) :
  wf st ->
  (insert_location ts location prio st).1 = true ->
  In k shadowing_keys -> location !! k = Some v ->
  let st' := (insert_location ts location prio st).2 in
  exists r extra,
    rows st' = rows st ++ [r] /\ rowid r = seq st + 1
    /\ compressed_data r = Some (Gz extra) /\ extra !! k = Some v
    /\ row_to_dict r !! k = Some v
    /\ (k = "id" -> v <> VInt (rowid r) ->
        row_to_dict r !! "id" <> Some (VInt (rowid r)))
    /\ (forall batch_size,
          in_int64 batch_size = true ->
          batch_size < 0 \/ count_rows unsynced st' <= batch_size ->
          In (row_to_dict r) (get_unsynced_batch batch_size st'))
    /\ (forall r0, compressed_data r0 = None ->
          row_to_dict r0 !! "id" = Some (VInt (rowid r0))
          /\ row_to_dict r0 !! "device_id" = Some (device_id r0)
          /\ row_to_dict r0 !! "altitude" = Some (altitude r0)
          /\ row_to_dict r0 !! "satellites" = Some (satellites r0)
          /\ row_to_dict r0 !! "hdop" = Some (hdop r0)).
Proof.
  intros Hwf Hok Hshadow Hk st'.
  assert (insertable location prio st = true) as Hins.
  { rewrite insert_location_eq in Hok.
    destruct (insertable location prio st); [reflexivity|discriminate]. }
  assert (~ In k core_keys) as Hcore.
  { unfold shadowing_keys, core_keys in *. simpl in *.
    intuition (subst; discriminate). }
  destruct (inserted_row_blob (conversions st) ts location prio (seq st + 1) k v
              Hk Hcore)
    as [Hblob Hx].
  pose proof (row_to_dict_extra _ _ k v Hblob Hx) as Hd.
  exists (inserted_row (conversions st) ts location prio (seq st + 1)), (extra_data location).
  destruct (inserted_row_selected ts location prio st 0 Hwf Hins) as (Hrows & _ & _).
  split; [exact Hrows|]. split; [reflexivity|]. split; [exact Hblob|].
  split; [exact Hx|]. split; [exact Hd|]. split; [|split].
  - intros -> Hne. rewrite Hd. congruence.
  - intros batch_size Hn Hbig.
    destruct (inserted_row_selected ts location prio st batch_size Hwf Hins)
      as (_ & _ & Hret).
    apply Hret; assumption.
  - intros r0 Hnone. unfold row_to_dict. rewrite Hnone.
    repeat split; simplify_map_eq; reflexivity.
Qed.

(** C10, witness: a fix carrying [id] = 99 is stored as row 4 of the
    buffer and comes back with the id 99. *)
Lemma extra_shadows_columns_witness :
  exists r,
    rows (insert_location "2024-01-08 12:00:30" fix_with_id 0 three_fixes).2
      = rows three_fixes ++ [r]
    /\ rowid r = 4
    /\ row_to_dict r !! "id" = Some (VInt 99)
    /\ In (row_to_dict r)
          (get_unsynced_batch 10
             (insert_location "2024-01-08 12:00:30" fix_with_id 0 three_fixes).2).
Proof.
  destruct (extra_shadows_columns "2024-01-08 12:00:30" fix_with_id 0
              three_fixes "id" (VInt 99) wf_three_fixes)
    as (r & extra & Hrows & Hid & _ & _ & Hd & _ & Hret & _).
  - vm_compute. reflexivity.
  - simpl. auto.
  - vm_compute. reflexivity.
  - exists r. split; [exact Hrows|]. split; [exact Hid|]. split; [exact Hd|].
    apply Hret; [reflexivity|]. right. vm_compute. discriminate.
Defined.

(** ** cleanup_old_data *)

(** What the sweep does: it keeps exactly the rows that are unsynced
    or whose timestamp text is not below the ISO text of the cutoff,
    reports the number of rows it removed, and runs VACUUM once when
    that number is positive; when the VACUUM fails it reports 0. *)
Lemma cleanup_old_data_spec now days vacuum_ok st cutoff :
  minus_days now days = Ok cutoff ->
  let out := cleanup_old_data now days vacuum_ok st in
  let gone := filter (fun r => old_synced (isoformat cutoff) r = true) (rows st) in
  rows out.2 = filter (fun r => old_synced (isoformat cutoff) r = false) (rows st)
  /\ (forall r, In r (rows st) -> synced r = false -> In r (rows out.2))
  /\ out.1 = (if vacuum_ok then Z.of_nat (length gone) else 0)
  /\ vacuums out.2
     = (if vacuum_ok && negb (Nat.eqb (length gone) 0)
        then S (vacuums st) else vacuums st).
Proof.
  intros Hc out gone. subst out. unfold cleanup_old_data. rewrite Hc.
  set (kept := filter (fun r => old_synced (isoformat cutoff) r = false) (rows st)).
  assert (length (rows st) = (length gone + length kept)%nat) as Hlen.
  { subst gone kept. induction (rows st) as [|r l IH]; [reflexivity|].
    rewrite !filter_cons.
    destruct (old_synced (isoformat cutoff) r) eqn:E.
    - destruct (decide (true = true)); [|congruence].
      destruct (decide (true = false)); [congruence|]. simpl. lia.
    - destruct (decide (false = true)); [congruence|].
      destruct (decide (false = false)); [|congruence]. simpl. lia. }
  assert (forall r, In r (rows st) -> synced r = false -> In r kept) as Hkeep.
  { intros r Hr Hs. apply list_elem_of_In, list_elem_of_filter.
    split; [unfold old_synced; rewrite Hs; reflexivity|apply list_elem_of_In, Hr]. }
  rewrite Hlen.
  replace (Z.of_nat (length gone + length kept) - Z.of_nat (length kept))
    with (Z.of_nat (length gone)) by lia.
  destruct (length gone) as [|n] eqn:Hg.
  - simpl. destruct vacuum_ok; simpl; auto.
  - assert ((0 <? Z.of_nat (S n)) = true) as -> by (apply Z.ltb_lt; lia).
    destruct vacuum_ok; simpl; auto.
Qed.

(** C6, the code at the failing inputs.  A synced fix stored on
    2024-01-08 at 12:00:00 is 6 days and 18 hours old on 2024-01-15 at
    06:00:00, inside a window of 7 days, and the sweep deletes it, since
    the stored text "2024-01-08 12:00:00" is below the cutoff text
    "2024-01-08T06:00:00"; when the VACUUM fails the row is deleted all
    the same and the sweep returns 0.  With the window 0, a synced fix
    stored at 04:00:00 UTC of 2024-01-09 survives a sweep run at that
    moment on a device whose local time is 20:00:00 of 2024-01-08. *)
Theorem cleanup_old_data_misses_window :
  map timestamp (rows delivered_fix) = ["2024-01-08 12:00:00"]
  /\ datetime_micros (at_time 2024 1 15 6 0 0)
       - datetime_micros (at_time 2024 1 8 12 0 0)
     < 7 * 86400 * 1000000
  /\ bind (minus_days (at_time 2024 1 15 6 0 0) 7)
          (fun cutoff => ret (isoformat cutoff))
     = Ok "2024-01-08T06:00:00"
  /\ (cleanup_old_data (at_time 2024 1 15 6 0 0) 7 true delivered_fix).1 = 1
  /\ rows (cleanup_old_data (at_time 2024 1 15 6 0 0) 7 true delivered_fix).2
     = []
  /\ (cleanup_old_data (at_time 2024 1 15 6 0 0) 7 false delivered_fix).1 = 0
  /\ rows (cleanup_old_data (at_time 2024 1 15 6 0 0) 7 false delivered_fix).2
     = []
  /\ map synced (rows delivered_overnight) = [true]
  /\ (cleanup_old_data (at_time 2024 1 8 20 0 0) 0 true delivered_overnight).1
     = 0
  /\ rows (cleanup_old_data (at_time 2024 1 8 20 0 0) 0 true
             delivered_overnight).2
     = rows delivered_overnight.
Proof. repeat split; vm_compute; reflexivity. Qed.

(** ** The sync worker *)

Lemma timedelta_seconds_within_day us :
  0 <= us < 86400000000 -> timedelta_seconds us = us / 1000000.
Proof.
  intros H. unfold timedelta_seconds. apply Z.mod_small. split.
  - apply Z.div_pos; lia.
  - apply Z.div_lt_upper_bound; lia.
Qed.

Lemma nonempty_app {A} (l : list A) x : nonempty (l ++ [x]) = true.
Proof. destruct l; reflexivity. Qed.

(** C5, counterexample: 150 queued locations, batches of 100, an
    interval of 30 s.  The worker uploads 100 locations on the 100th
    item and the other 50 at the first empty poll, 2.5 s after the
    start and 1.495 s after the first upload: a batch below the size
    limit, long before the interval is over. *)
Lemma sync_worker_flushes_on_idle :
  map upload_size (sync_worker cfg_100_30 scenario_ticks (queued 150)).2
  = replicate 99 None ++ [Some (100%nat, true)]
    ++ replicate 50 None ++ [Some (50%nat, true)]
  /\ (exists s,
        (sync_worker cfg_100_30 (map busy_tick (List.seq 1 150)) (queued 150)).1 = s
        /\ sync_queue s = []
        /\ length (batch s) = 50%nat
        /\ (now idle_tick - last_sync s) / 1000000 < 30
        /\ upload_size (sync_worker_turn cfg_100_30 idle_tick s).2
           = Some (50%nat, true)).
Proof.
  split; [vm_compute; reflexivity|].
  eexists. split; [reflexivity|].
  repeat split; vm_compute; reflexivity.
Qed.

(** C5, amended: a turn that takes an item off the queue uploads the
    batch, the item included, exactly when the batch has reached
    [batch_size] or, the last successful upload being less than a day
    back, at least [sync_interval] whole seconds have passed since; a
    turn that finds the queue empty for a second uploads the batch as
    soon as it is not empty, whatever its size and the time passed.  With
    150 locations queued, [batch_size] 100 and [sync_interval] 30, the
    worker uploads 100 locations on the 100th item and the other 50 at
    the first empty poll. *)
Theorem sync_worker_flush_rule (cfg : config) (t : tick) (s : sync_state) :
  (forall it rest,
     sync_queue s = it :: rest ->
     0 <= now t - last_sync s < 86400000000 ->
     (sync_worker_turn cfg t s).2
     = if (config_get (batch_size cfg) 100
             <=? Z.of_nat (length (batch s)) + 1)
          || (config_get (sync_interval cfg) 30
                <=? (now t - last_sync s) / 1000000)
       then Some (batch s ++ [data it], upload_ok t)
       else None)
  /\ (sync_queue s = [] ->
      (sync_worker_turn cfg t s).2
      = if nonempty (batch s) then Some (batch s, upload_ok t) else None)
  /\ map upload_size (sync_worker cfg_100_30 scenario_ticks (queued 150)).2
     = replicate 99 None ++ [Some (100%nat, true)]
       ++ replicate 50 None ++ [Some (50%nat, true)].
Proof.
  split; [|split].
  - intros it rest Hq Hday. unfold sync_worker_turn. rewrite Hq.
    rewrite nonempty_app, andb_true_r, length_app. simpl length.
    rewrite (timedelta_seconds_within_day _ Hday).
    replace (Z.of_nat (length (batch s) + 1)) with (Z.of_nat (length (batch s)) + 1)
      by lia.
    destruct (_ || _); [destruct (upload_ok t)|]; reflexivity.
  - intros Hq. unfold sync_worker_turn. rewrite Hq.
    destruct (nonempty (batch s)); [destruct (upload_ok t)|]; reflexivity.
  - vm_compute. reflexivity.
Qed.

(** C5, witness: one queued location taken 31 s after the start is
    uploaded on the interval, far below the size limit. *)
Lemma sync_worker_flush_rule_witness :
  (sync_worker_turn cfg_100_30 tick_late (queued 1)).2
  = Some ([gps_fix], true).
Proof.
  pose proof (sync_worker_flush_rule cfg_100_30 tick_late (queued 1))
    as (H & _ & _).
  rewrite (H {| item_timestamp := "2024-01-08T12:00:00";
                data := gps_fix; attempts := 0 |} []).
  - reflexivity.
  - reflexivity.
  - simpl. lia.
Defined.

(** C1, counterexample: the tracker has buffered its first fix as
    row 1 and queued it.  The worker uploads that fix; after a success
    row 1 is still unsynced, and after a failure its retry count is
    still 0. *)
Lemma sync_worker_leaves_store_alone :
  map rowid (rows (buffer tracker_one_fix)) = [1]
  /\ upload_size (worker_turn cfg_each tick_ok tracker_one_fix).2
     = Some (1%nat, true)
  /\ ~ store_follows_push true [1] (buffer tracker_one_fix)
         (buffer (worker_turn cfg_each tick_ok tracker_one_fix).1)
  /\ upload_size (worker_turn cfg_each tick_failed tracker_one_fix).2
     = Some (1%nat, false)
  /\ ~ store_follows_push false [1] (buffer tracker_one_fix)
         (buffer (worker_turn cfg_each tick_failed tracker_one_fix).1).
Proof.
  split; [vm_compute; reflexivity|].
  split; [vm_compute; reflexivity|]. split; [|split; [vm_compute; reflexivity|]].
  - intros H. simpl in H.
    assert (exists r, In r (rows (buffer tracker_one_fix)) /\ rowid r = 1
                      /\ synced r = false) as (r & Hr & Hid & Hs).
    { eexists. split; [vm_compute; left; reflexivity|].
      split; reflexivity. }
    specialize (H r Hr). rewrite Hid in H. rewrite H in Hs; [discriminate|].
    simpl. auto.
  - intros H. simpl in H.
    assert (exists r, In r (rows (buffer tracker_one_fix)) /\ rowid r = 1
                      /\ retry_count r = 0) as (r & Hr & Hid & Hc).
    { eexists. split; [vm_compute; left; reflexivity|].
      split; reflexivity. }
    destruct (H r r Hr Hr eq_refl) as [Hinc _].
    + rewrite Hid. simpl. auto.
    + lia.
Qed.

(** C1, amended: the worker never touches the buffer: whatever the
    outcome of an upload, no row is marked synced and no retry count
    changes.  After a successful upload the batch is emptied and
    [last_sync] is set to the time after the upload.  After a failed
    upload that followed the taking of an item, every member of the
    batch is put back at the end of the queue with that item's attempts
    plus one, and the batch is emptied; after a failed upload at an
    empty poll the batch is kept as it is for the next turn. *)
Theorem sync_worker_outcome (cfg : config) (t : tick) (w : world)
    (pushed : list dict) (ok : bool) :
  (worker_turn cfg t w).2 = Some (pushed, ok) ->
  let w' := (worker_turn cfg t w).1 in
  buffer w' = buffer w
  /\ ok = upload_ok t
  /\ pushed = batch (sync w) ++ map data (take 1 (sync_queue (sync w)))
  /\ (if ok then
        batch (sync w') = []
        /\ last_sync (sync w') = now_after t
        /\ sync_queue (sync w') = tail (sync_queue (sync w))
      else
        last_sync (sync w') = last_sync (sync w)
        /\ match sync_queue (sync w) with
           | it :: rest =>
               batch (sync w') = []
               /\ sync_queue (sync w') = rest ++ map (requeued t it) pushed
           | [] =>
               batch (sync w') = pushed /\ sync_queue (sync w') = []
           end).
Proof.
  unfold worker_turn, sync_worker_turn.
  destruct w as [b [q bt ls]]; simpl.
  destruct q as [|it rest]; simpl.
  - destruct (nonempty bt); [|discriminate].
    destruct (upload_ok t); intros [= <- <-]; simpl;
      rewrite app_nil_r; repeat split; reflexivity.
  - destruct (_ && _); [|discriminate].
    destruct (upload_ok t); intros [= <- <-]; simpl;
      repeat split; reflexivity.
Qed.

(** C1, witness: the failed upload of the tracker's first fix. *)
Lemma sync_worker_outcome_witness :
  buffer (worker_turn cfg_each tick_failed tracker_one_fix).1
  = buffer tracker_one_fix
  /\ false = upload_ok tick_failed.
Proof.
  assert ((worker_turn cfg_each tick_failed tracker_one_fix).2
          = Some ([<["device_id" := VStr "fleet-001"]> gps_fix], false)) as E
    by (vm_compute; reflexivity).
  pose proof (sync_worker_outcome cfg_each tick_failed tracker_one_fix
                _ _ E) as (Hb & Hok & _ & _).
  split; [exact Hb|exact Hok].
Defined.

(** * Further properties of the buffer *)

Lemma run_seq ops : forall st, seq st <= seq (run ops st).
Proof.
  induction ops as [|o ops IH]; intros st; simpl; [lia|].
  pose proof (step_seq st o). specialize (IH (step st o)). lia.
Qed.

(** X1: [increment_retry] succeeds exactly when SQLite accepts the id
    list.  When it succeeds, every row whose id is in the list has its
    retry count raised by exactly one, however often the id occurs in
    the list, and keeps all its other columns; every other row and the
    rest of the store are unchanged.  When it fails, nothing changes. *)
Theorem increment_retry_exact (ids : list Z) (st : DataBuffer) :
  ((increment_retry ids st).1 = ids_ok st ids)
  /\ (if (increment_retry ids st).1
      then
        Forall2 (fun r r' =>
                   (In (rowid r) ids ->
                    retry_count r' = retry_count r + 1
                    /\ same_but_retry r r')
                   /\ (~ In (rowid r) ids -> r' = r))
                (rows st) (rows (increment_retry ids st).2)
        /\ seq (increment_retry ids st).2 = seq st
        /\ max_variable_number (increment_retry ids st).2
           = max_variable_number st
        /\ vacuums (increment_retry ids st).2 = vacuums st
      else (increment_retry ids st).2 = st).
Proof.
  rewrite increment_retry_eq. split; [destruct (ids_ok st ids); reflexivity|].
  destruct (ids_ok st ids); simpl; [|reflexivity].
  split; [|auto].
  induction (rows st) as [|r l IH]; simpl; constructor; [|exact IH].
  destruct (id_in ids r) eqn:E.
  - apply id_in_spec in E. unfold same_but_retry. simpl. tauto.
  - split; [|reflexivity].
    intros Hin. apply id_in_spec in Hin. congruence.
Qed.

(** X1, witness: id 2 named twice on the three fixes raises the retry
    count of row 2 once. *)
Lemma increment_retry_exact_witness :
  (increment_retry [2; 2] three_fixes).1 = true
  /\ map retry_count (rows (increment_retry [2; 2] three_fixes).2)
     = [0; 1; 0].
Proof.
  destruct (increment_retry_exact [2; 2] three_fixes) as [Hok _].
  split; [rewrite Hok|]; vm_compute; reflexivity.
Defined.

(** X2: rowids are never reused.  On a table built by the operations,
    a row inserted after any further operations, sweeps included, gets
    an id above the id of every row the table held before, whether that
    row is still there or was deleted in between. *)
Theorem rowid_never_reused (st : DataBuffer) (ops : list op) (r : row)
    (ts : string) (location : dict) (prio : Z) :
  wf st -> In r (rows st) ->
  (insert_location ts location prio (run ops st)).1 = true ->
  exists r',
    rows (insert_location ts location prio (run ops st)).2
      = rows (run ops st) ++ [r']
    /\ rowid r < rowid r'
    /\ Forall (fun x => rowid x < rowid r') (rows (run ops st)).
Proof.
  intros Hwf Hr Hok. rewrite insert_location_eq in *.
  destruct (insertable location prio (run ops st)); [|discriminate].
  simpl. eexists. split; [reflexivity|]. simpl.
  pose proof (run_seq ops st) as Hseq.
  pose proof (run_wf ops st Hwf) as (_ & Hb & _).
  destruct Hwf as (_ & Hb0 & _). rewrite Forall_forall in Hb0.
  apply list_elem_of_In, Hb0 in Hr. split; [lia|].
  eapply Forall_impl; [exact Hb|]. simpl. intros; lia.
Qed.

(** X2, witness: row 1 of the three fixes is synced and swept away,
    and the next insert is stored as row 4. *)
Lemma rowid_never_reused_witness :
  exists r',
    rows (insert_location "2024-02-01 08:00:00" gps_fix 0
            (run [MarkSynced true [1]; Cleanup (at_time 2024 2 1 8 0 0) 7 true]
               three_fixes)).2
      = rows (run [MarkSynced true [1]; Cleanup (at_time 2024 2 1 8 0 0) 7 true]
                three_fixes) ++ [r']
    /\ 1 < rowid r'.
Proof.
  destruct (rowid_never_reused three_fixes
              [MarkSynced true [1]; Cleanup (at_time 2024 2 1 8 0 0) 7 true]
              (inserted_row sample_conversions "2024-01-08 12:00:00" gps_fix 0 1)
              "2024-02-01 08:00:00" gps_fix 0 wf_three_fixes)
    as (r' & Hrows & Hlt & _).
  - vm_compute. left. reflexivity.
  - vm_compute. reflexivity.
  - exists r'. split; [exact Hrows|exact Hlt].
Defined.

Lemma filter_both_length {A} (p : A -> bool) (l : list A) :
  length l
  = (length (filter (fun x => p x = true) l)
     + length (filter (fun x => p x = false) l))%nat.
Proof.
  induction l as [|x l IH]; [reflexivity|].
  rewrite !filter_cons. destruct (p x).
  - destruct (decide (true = true)); [|congruence].
    destruct (decide (true = false)); [congruence|]. simpl. lia.
  - destruct (decide (false = true)); [congruence|].
    destruct (decide (false = false)); [|congruence]. simpl. lia.
Qed.

Lemma filter_filter_unsynced cutoff (l : list row) :
  filter (fun r => synced r = false)
         (filter (fun r => old_synced cutoff r = false) l)
  = filter (fun r => synced r = false) l.
Proof.
  induction l as [|r l IH]; [reflexivity|].
  rewrite (filter_cons (fun r => old_synced cutoff r = false)).
  destruct (decide (old_synced cutoff r = false)) as [Hk|Hk].
  - rewrite !filter_cons. rewrite IH. reflexivity.
  - rewrite IH. rewrite filter_cons.
    destruct (decide (synced r = false)) as [Hs|]; [|reflexivity].
    exfalso. apply Hk. unfold old_synced. rewrite Hs. reflexivity.
Qed.

(** X3: whatever the clock, the window and the outcome of VACUUM,
    [cleanup_old_data] keeps every unsynced row, in order, and only
    removes rows; the number it returns is never more than the number
    of rows it removed and is that number when VACUUM succeeds; VACUUM
    has run exactly when the returned number is positive; the rowid
    counter is untouched.  A window beyond 999999999 days makes it
    return 0 and change nothing. *)
Theorem cleanup_old_data_keeps_unsynced (now : datetime) (days : Z)
    (vacuum_ok : bool) (st : DataBuffer) :
  let out := cleanup_old_data now days vacuum_ok st in
  let removed := Z.of_nat (length (rows st)) - Z.of_nat (length (rows out.2)) in
  filter (fun r => synced r = false) (rows out.2)
    = filter (fun r => synced r = false) (rows st)
  /\ sublist (rows out.2) (rows st)
  /\ 0 <= out.1 <= removed
  /\ (if vacuum_ok then out.1 = removed else out.1 = 0)
  /\ vacuums out.2 = (if 0 <? out.1 then S (vacuums st) else vacuums st)
  /\ seq out.2 = seq st
  /\ (if (days <? -999999999) || (999999999 <? days)
      then out = (0, st) else True).
Proof.
  intros out removed. subst out removed. unfold cleanup_old_data.
  assert ((if (days <? -999999999) || (999999999 <? days)
           then minus_days now days = Raised OverflowError else True)) as Hov.
  { unfold minus_days. destruct (_ || _); [reflexivity|exact I]. }
  destruct (minus_days now days) as [e|cutoff].
  { simpl. rewrite Z.sub_diag.
    repeat split; try reflexivity; try lia.
    - destruct vacuum_ok; reflexivity.
    - destruct (_ || _); [reflexivity|exact I]. }
  set (kept := filter (fun r => old_synced (isoformat cutoff) r = false) (rows st)).
  assert (length kept <= length (rows st))%nat as Hle by apply length_filter.
  assert (sublist kept (rows st)) as Hsub by apply sublist_filter.
  assert (filter (fun r => synced r = false) kept
          = filter (fun r => synced r = false) (rows st)) as Hun
    by apply filter_filter_unsynced.
  destruct (0 <? Z.of_nat (length (rows st)) - Z.of_nat (length kept)) eqn:Hpos.
  - apply Z.ltb_lt in Hpos. destruct vacuum_ok; simpl.
    + rewrite (proj2 (Z.ltb_lt _ _) Hpos).
      repeat split; auto; try lia.
      destruct (_ || _); [discriminate|exact I].
    + repeat split; auto; try lia.
      destruct (_ || _); [discriminate|exact I].
  - apply Z.ltb_ge in Hpos. simpl.
    assert (Z.of_nat (length (rows st)) - Z.of_nat (length kept) = 0) as H0
      by lia.
    rewrite H0. simpl.
    repeat split; auto; try lia.
    + destruct vacuum_ok; reflexivity.
    + destruct (_ || _); [discriminate|exact I].
Qed.

Lemma filter_idem {A} (P : A -> Prop) `{forall x, Decision (P x)} (l : list A) :
  filter P (filter P l) = filter P l.
Proof.
  induction l as [|x l IH]; [reflexivity|].
  rewrite filter_cons. destruct (decide (P x)) as [Hx|Hx]; [|exact IH].
  rewrite filter_cons_True by exact Hx. rewrite IH. reflexivity.
Qed.

Lemma cleanup_old_data_kept now days vacuum_ok st cutoff :
  minus_days now days = Ok cutoff ->
  rows (cleanup_old_data now days vacuum_ok st).2
  = filter (fun r => old_synced (isoformat cutoff) r = false) (rows st).
Proof.
  intros Hc. unfold cleanup_old_data. rewrite Hc.
  destruct (0 <? _); [destruct vacuum_ok|]; reflexivity.
Qed.

(** X4: a second sweep with the same clock and window finds nothing
    left to delete: it returns 0, runs no VACUUM and leaves the store as
    the first sweep left it. *)
Theorem cleanup_old_data_twice (now : datetime) (days : Z)
    (vacuum_ok vacuum_ok' : bool) (st : DataBuffer) :
  cleanup_old_data now days vacuum_ok'
    (cleanup_old_data now days vacuum_ok st).2
  = (0, (cleanup_old_data now days vacuum_ok st).2).
Proof.
  destruct (minus_days now days) as [e|cutoff] eqn:Hc.
  { unfold cleanup_old_data. rewrite Hc. reflexivity. }
  pose proof (cleanup_old_data_kept now days vacuum_ok st cutoff Hc) as Hrows.
  generalize dependent (cleanup_old_data now days vacuum_ok st).2.
  intros st1 Hrows. unfold cleanup_old_data. rewrite Hc.
  rewrite Hrows, filter_idem, Z.sub_diag. simpl.
  rewrite <- Hrows, set_rows_same. reflexivity.
Qed.

Lemma ids_ok_update ids ids' f st :
  ids_ok (update_where ids' f st) ids = ids_ok st ids.
Proof. reflexivity. Qed.

Lemma update_where_twice ids ids' f g st :
  (forall r, rowid (f r) = rowid r) ->
  update_where ids' g (update_where ids f st)
  = set_rows st (map (fun r => let r1 := if id_in ids r then f r else r in
                               if id_in ids' r then g r1 else r1) (rows st)).
Proof.
  intros Hf. unfold update_where, set_rows. simpl. f_equal.
  rewrite map_map. apply map_ext. intros r.
  assert (id_in ids' (if id_in ids r then f r else r) = id_in ids' r) as ->.
  { unfold id_in. destruct (existsb _ ids); [rewrite Hf|]; reflexivity. }
  reflexivity.
Qed.

(** X5: marking is idempotent and independent of the retry counter:
    [mark_synced] applied twice with the same ids gives the result of
    applying it once, and a [mark_synced] and an [increment_retry] leave
    the same store in either order, whether the commits of
    [mark_synced] succeed or fail. *)
Theorem mark_synced_idempotent_commutes (commit_ok : bool) (a b : list Z)
    (st : DataBuffer) :
  mark_synced commit_ok a (mark_synced commit_ok a st).2
  = mark_synced commit_ok a st
  /\ (increment_retry b (mark_synced commit_ok a st).2).2
     = (mark_synced commit_ok a (increment_retry b st).2).2.
Proof.
  split.
  - rewrite (mark_synced_eq commit_ok a st).
    destruct (ids_ok st a) eqn:Ha; simpl.
    + rewrite mark_synced_eq, ids_ok_update, Ha. f_equal.
      rewrite update_where_twice by reflexivity.
      unfold update_where. f_equal. apply map_ext. intros r. simpl.
      destruct (id_in a r); reflexivity.
    + rewrite mark_synced_eq, Ha. reflexivity.
  - rewrite (mark_synced_eq commit_ok a st), (increment_retry_eq b st).
    destruct (ids_ok st a) eqn:Ha, (ids_ok st b) eqn:Hb; simpl;
      rewrite ?mark_synced_eq, ?increment_retry_eq, ?ids_ok_update, ?Ha, ?Hb;
      simpl; try reflexivity.
    rewrite !update_where_twice by reflexivity. f_equal.
    apply map_ext. intros r. simpl.
    destruct (id_in a r), (id_in b r); reflexivity.
Qed.

Lemma count_rows_bounds p st :
  0 <= count_rows p st <= Z.of_nat (length (rows st)).
Proof.
  unfold count_rows.
  pose proof (length_filter (fun r => p r = true) (rows st)). lia.
Qed.

Lemma filter_and_length (p q : row -> bool) (l : list row) :
  (length (filter (fun r => (p r && q r) = true) l)
   <= length (filter (fun r => p r = true) l))%nat.
Proof.
  induction l as [|r l IH]; [reflexivity|].
  rewrite !filter_cons.
  destruct (decide ((p r && q r) = true)) as [H|H].
  - apply andb_true_iff in H. destruct H as [Hp _].
    destruct (decide (p r = true)); [simpl; lia|congruence].
  - destruct (decide (p r = true)); simpl; lia.
Qed.

Lemma count_rows_all st :
  count_rows (fun _ => true) st = Z.of_nat (length (rows st)).
Proof.
  unfold count_rows. f_equal.
  induction (rows st) as [|r l IH]; [reflexivity|].
  rewrite filter_cons_True by reflexivity. simpl. congruence.
Qed.

Lemma get_stats_total page_count page_size st :
  get_stats page_count page_size st !! "total"
  = Some (Z.of_nat (length (rows st))).
Proof.
  unfold get_stats. simplify_map_eq. rewrite count_rows_all. reflexivity.
Qed.

(** X6: the counts of [get_stats] bound each other and the batches:
    [unsynced] and [failed] lie between 0 and [total], and no call of
    [get_unsynced_batch], whatever its limit, returns more records than
    [unsynced] counts. *)
Theorem get_stats_bounds (page_count page_size batch_size : Z)
    (st : DataBuffer) :
  exists total unsynced_n failed,
    get_stats page_count page_size st !! "total" = Some total
    /\ get_stats page_count page_size st !! "unsynced" = Some unsynced_n
    /\ get_stats page_count page_size st !! "failed" = Some failed
    /\ 0 <= unsynced_n <= total
    /\ 0 <= failed <= total
    /\ Z.of_nat (length (get_unsynced_batch batch_size st)) <= unsynced_n.
Proof.
  exists (count_rows (fun _ => true) st),
         (count_rows (fun r => negb (synced r)) st),
         (count_rows (fun r => 5 <=? retry_count r) st).
  pose proof (count_rows_all st) as Ht.
  split; [unfold get_stats; simplify_map_eq; reflexivity|].
  split; [unfold get_stats; simplify_map_eq; reflexivity|].
  split; [unfold get_stats; simplify_map_eq; reflexivity|].
  rewrite Ht. split; [apply count_rows_bounds|].
  split; [apply count_rows_bounds|].
  rewrite get_unsynced_batch_eq.
  destruct (in_int64 batch_size); [|simpl; apply count_rows_bounds].
  rewrite length_map. unfold select_unsynced, count_rows.
  assert (forall l : list row, length (sql_limit batch_size l) <= length l)%nat
    as Hlim.
  { intros l. unfold sql_limit. destruct (batch_size <? 0); [lia|].
    rewrite length_take. lia. }
  specialize (Hlim (sort_rows (filter (fun r => unsynced r = true) (rows st)))).
  rewrite (Permutation_length (sort_rows_perm _)) in Hlim.
  pose proof (filter_and_length (fun r => negb (synced r))
                (fun r => retry_count r <? 5) (rows st)) as Hand.
  apply Nat2Z.inj_le. etransitivity; [exact Hlim|exact Hand].
Qed.

Lemma step_rows_reported st o :
  vacuum_succeeds o ->
  Z.of_nat (length (rows (step st o)))
  = Z.of_nat (length (rows st)) + reported_rows [o] st.
Proof.
  intros Hv. destruct o; simpl in *; try lia.
  - rewrite insert_location_eq.
    destruct (insertable location prio st); simpl; [|lia].
    rewrite length_app. simpl. lia.
  - rewrite mark_synced_eq. destruct (ids_ok st ids); simpl; [|lia].
    rewrite length_map. lia.
  - rewrite increment_retry_eq. destruct (ids_ok st ids); simpl; [|lia].
    rewrite length_map. lia.
  - subst vacuum_ok. unfold cleanup_old_data.
    destruct (minus_days now0 days); simpl; [lia|].
    destruct (0 <? _) eqn:E; simpl; lia.
Qed.

(** X7: the row count follows what the calls report.  As long as no
    VACUUM fails, after any run of operations [total] of [get_stats] is
    the number of rows before the run, plus one for every
    [insert_location] that returned [True], minus the counts that the
    calls of [cleanup_old_data] returned. *)
Theorem total_follows_reports (page_count page_size : Z) (ops : list op)
    (st : DataBuffer) :
  Forall vacuum_succeeds ops ->
  get_stats page_count page_size (run ops st) !! "total"
  = Some (Z.of_nat (length (rows st)) + reported_rows ops st).
Proof.
  intros Hv.
  assert (Z.of_nat (length (rows (run ops st)))
          = Z.of_nat (length (rows st)) + reported_rows ops st) as Hlen.
  { revert st. induction Hv as [|o ops Ho Hops IH]; intros st.
    - simpl. lia.
    - change (run (o :: ops) st) with (run ops (step st o)).
      rewrite IH, (step_rows_reported st o Ho). simpl. lia. }
  rewrite get_stats_total, Hlen. reflexivity.
Qed.

(** X7, witness: three inserts, one of them refused, a mark and a
    sweep that deletes the marked row leave two rows. *)
Lemma total_follows_reports_witness :
  get_stats 3 4096
    (run [Insert "2024-01-08 12:00:00" gps_fix 0;
          Insert "2024-01-08 12:00:10" (delete "latitude" gps_fix) 0;
          Insert "2024-01-08 12:00:20" gps_fix 0;
          Insert "2024-01-08 12:00:30" gps_fix 0;
          MarkSynced true [1];
          Cleanup (at_time 2024 2 1 8 0 0) 7 true] empty_buffer) !! "total"
  = Some 2.
Proof.
  rewrite total_follows_reports.
  - vm_compute. reflexivity.
  - repeat constructor.
Defined.

Lemma extra_data_ext (l1 l2 : dict) :
  (forall k, ~ In k core_keys -> l1 !! k = l2 !! k) ->
  extra_data l1 = extra_data l2.
Proof.
  intros H. apply map_eq. intros k. apply option_eq. intros v.
  rewrite !extra_data_lookup. split; intros [Hk Hc]; split; auto.
  - rewrite <- H; assumption.
  - rewrite H; assumption.
Qed.

Lemma insert_location_ext ts (l1 l2 : dict) prio st :
  (forall k, k <> "timestamp" -> l1 !! k = l2 !! k) ->
  insert_location ts l1 prio st = insert_location ts l2 prio st.
Proof.
  intros H.
  assert (extra_data l1 = extra_data l2) as Hx.
  { apply extra_data_ext. intros k Hk. apply H. intros ->. apply Hk.
    simpl. auto 10. }
  rewrite !insert_location_eq.
  unfold insertable, inserted_row, get. rewrite Hx.
  rewrite !(H "latitude"), !(H "longitude"), !(H "device_id"),
    !(H "speed"), !(H "heading"), !(H "altitude"), !(H "satellites"),
    !(H "hdop") by discriminate.
  reflexivity.
Qed.

Lemma row_to_dict_core lib ts location prio i k :
  In k core_keys ->
  row_to_dict (inserted_row lib ts location prio i) !! k
  = (<["id" := VInt i]>
     (<["timestamp" := VStr ts]>
     (<["latitude" := stored_real lib (get location "latitude" VNone)]>
     (<["longitude" := stored_real lib (get location "longitude" VNone)]>
     (<["speed" := stored_real lib (get location "speed" (VInt 0))]>
     (<["heading" := stored_real lib (get location "heading" (VInt 0))]> ∅)))))
     : dict) !! k.
Proof.
  intros Hk. unfold row_to_dict. simpl.
  assert (extra_data location !! k = None) as Hnone.
  { destruct (extra_data location !! k) eqn:E; [|reflexivity].
    apply extra_data_lookup in E. tauto. }
  assert (forall d : dict,
            (match (if dict_truthy (extra_data location)
                    then Some (Gz (extra_data location)) else None) with
             | Some b => decompress_json b ∪ d
             | None => d
             end) !! k = d !! k) as Hunion.
  { intros d. destruct (dict_truthy (extra_data location)); [|reflexivity].
    simpl. rewrite lookup_union_r; [reflexivity|exact Hnone]. }
  rewrite Hunion.
  simpl in Hk.
  destruct Hk as [<-|[<-|[<-|[<-|[<-|[]]]]]]; simplify_map_eq; reflexivity.
Qed.

(** X8: the timestamp a location carries is discarded.  Whatever value
    the location has under [timestamp], [insert_location] does what it
    does without that key, and the dictionary [get_unsynced_batch]
    builds from the stored row reports the time of the insert as its
    [timestamp]. *)
Theorem location_timestamp_discarded (ts : string) (location : dict)
    (v : value) (prio : Z) (st : DataBuffer) :
  insert_location ts (<["timestamp" := v]> location) prio st
  = insert_location ts (delete "timestamp" location) prio st
  /\ (if (insert_location ts (<["timestamp" := v]> location) prio st).1
      then exists r,
             rows (insert_location ts (<["timestamp" := v]> location)
                     prio st).2 = rows st ++ [r]
             /\ row_to_dict r !! "timestamp" = Some (VStr ts)
      else True).
Proof.
  split.
  - apply insert_location_ext. intros k Hk.
    rewrite lookup_insert_ne, lookup_delete_ne by congruence. reflexivity.
  - rewrite insert_location_eq.
    destruct (insertable _ prio st); [|exact I]. simpl.
    eexists. split; [reflexivity|].
    rewrite row_to_dict_core by (simpl; auto 10).
    simplify_map_eq. reflexivity.
Qed.

(** X9: latitude, longitude, speed and heading come back as the REAL
    columns store them.  After a successful [insert_location] the
    dictionary built from the new row has, under each of the four keys,
    what a REAL column stores for the location's value, with 0 for an
    absent speed or heading; no attribute of the location can replace
    them.  So a float comes back as it went in, but for the sign of a
    zero (a NaN, which only speed and heading can be, comes back as
    None); an integer comes back as the nearest double; an absent speed
    or heading comes back as 0.0. *)
Theorem core_fields_read_back (ts : string) (location : dict) (prio : Z)
    (st : DataBuffer) :
  (insert_location ts location prio st).1 = true ->
  exists r lat lon,
    rows (insert_location ts location prio st).2 = rows st ++ [r]
    /\ location !! "latitude" = Some lat
    /\ location !! "longitude" = Some lon
    /\ row_to_dict r !! "latitude" = Some (stored_real (conversions st) lat)
    /\ row_to_dict r !! "longitude" = Some (stored_real (conversions st) lon)
    /\ row_to_dict r !! "speed"
       = Some (stored_real (conversions st)
                 (default (VInt 0) (location !! "speed")))
    /\ row_to_dict r !! "heading"
       = Some (stored_real (conversions st)
                 (default (VInt 0) (location !! "heading")))
    /\ (forall k bits,
          In k ["latitude"; "longitude"; "speed"; "heading"] ->
          location !! k = Some (VFloat bits) ->
          row_to_dict r !! k
          = Some (if is_nan bits then VNone
                  else VFloat (if is_zero bits then 0 else bits)))
    /\ (forall k n,
          In k ["latitude"; "longitude"; "speed"; "heading"] ->
          location !! k = Some (VInt n) ->
          row_to_dict r !! k = Some (VFloat (real_of_int n)))
    /\ (forall k, In k ["speed"; "heading"] -> location !! k = None ->
          row_to_dict r !! k = Some (VFloat 0)).
Proof.
  rewrite insert_location_eq.
  destruct (insertable location prio st) eqn:Hins; [|discriminate].
  intros _. cbn [fst snd rows].
  apply insertable_true in Hins.
  destruct Hins as (lat & lon & Hlat & Hlon & _).
  eexists _, lat, lon. split; [reflexivity|].
  split; [exact Hlat|]. split; [exact Hlon|].
  assert (forall k, In k ["latitude"; "longitude"; "speed"; "heading"] ->
            row_to_dict (inserted_row (conversions st) ts location prio
                           (seq st + 1)) !! k
            = Some (stored_real (conversions st)
                      (default (if String.eqb k "latitude"
                                   || String.eqb k "longitude"
                                then VNone else VInt 0) (location !! k))))
    as Hcore.
  { intros k Hk. rewrite row_to_dict_core by (simpl in *; tauto).
    unfold get. simpl in Hk.
    destruct Hk as [<-|[<-|[<-|[<-|[]]]]]; simplify_map_eq;
      repeat match goal with |- context [location !! ?k] =>
               destruct (location !! k) end;
      reflexivity. }
  rewrite !Hcore by (simpl; tauto).
  rewrite Hlat, Hlon. cbn [default String.eqb orb Ascii.eqb Bool.eqb].
  repeat (split; [reflexivity|]).
  split; [|split].
  - intros k bits Hk Hv. rewrite (Hcore k Hk), Hv.
    cbv [default from_option id stored_real bound].
    destruct (is_nan bits); reflexivity.
  - intros k n Hk Hv. rewrite (Hcore k Hk), Hv. reflexivity.
  - intros k Hk Hv.
    rewrite (Hcore k) by (simpl in *; tauto). rewrite Hv.
    simpl in Hk. destruct Hk as [<-|[<-|[]]]; reflexivity.
Qed.

(** X9, witness: the sample fix, which has no speed. *)
Lemma core_fields_read_back_witness :
  exists r,
    rows (insert_location "2024-01-08 12:00:30" gps_fix 0 three_fixes).2
      = rows three_fixes ++ [r]
    /\ row_to_dict r !! "latitude" = Some (VFloat 4632585535448154112)
    /\ row_to_dict r !! "speed" = Some (VFloat 0).
Proof.
  destruct (core_fields_read_back "2024-01-08 12:00:30" gps_fix 0 three_fixes)
    as (r & lat & lon & Hrows & _ & _ & _ & _ & _ & _ & Hfloat & _ & Habsent).
  - vm_compute. reflexivity.
  - exists r. split; [exact Hrows|]. split.
    + rewrite (Hfloat "latitude" 4632585535448154112).
      * vm_compute. reflexivity.
      * simpl. auto.
      * vm_compute. reflexivity.
    + apply Habsent; [simpl; auto|vm_compute; reflexivity].
Defined.

Lemma increments_exact idss : forall st i r,
  Forall (fun ids => In i ids /\ ids_ok st ids = true) idss ->
  In r (rows st) -> rowid r = i ->
  exists r',
    In r' (rows (run (map IncrementRetry idss) st))
    /\ rowid r' = i /\ synced r' = synced r
    /\ retry_count r' = retry_count r + Z.of_nat (length idss).
Proof.
  induction idss as [|ids idss IH]; intros st i r Hall Hr Hid.
  - exists r. simpl. repeat split; auto. lia.
  - apply Forall_cons in Hall. destruct Hall as [[Hi Hok] Hall].
    change (run (map IncrementRetry (ids :: idss)) st)
      with (run (map IncrementRetry idss) (increment_retry ids st).2).
    destruct (IH (increment_retry ids st).2 i (add_retry r)) as (r' & H1 & H2 & H3 & H4).
    + eapply Forall_impl; [exact Hall|]. intros ids' [Hi' Hok'].
      split; [exact Hi'|]. rewrite increment_retry_eq, Hok. exact Hok'.
    + rewrite increment_retry_eq, Hok. simpl. apply in_map_iff.
      exists r. split; [|exact Hr].
      assert (id_in ids r = true) as -> by (apply id_in_spec; congruence).
      reflexivity.
    + exact Hid.
    + exists r'. repeat split; auto. rewrite H4. simpl retry_count.
      simpl length. lia.
Qed.

(** X10: below five failures a record stays claimable.  When an
    unsynced row has seen fewer than five successful [increment_retry]
    calls in all, it is still among the rows an unlimited
    [get_unsynced_batch] selects, with its retry count raised by the
    number of calls. *)
Theorem below_retry_limit_still_claimed (st : DataBuffer) (r : row)
    (idss : list (list Z)) :
  In r (rows st) -> synced r = false ->
  Forall (fun ids => In (rowid r) ids /\ ids_ok st ids = true) idss ->
  retry_count r + Z.of_nat (length idss) < 5 ->
  exists r',
    In r' (select_unsynced (-1) (run (map IncrementRetry idss) st))
    /\ rowid r' = rowid r
    /\ retry_count r' = retry_count r + Z.of_nat (length idss)
    /\ In (row_to_dict r')
          (get_unsynced_batch (-1) (run (map IncrementRetry idss) st)).
Proof.
  intros Hr Hs Hall Hlt.
  destruct (increments_exact idss st (rowid r) r Hall Hr eq_refl)
    as (r' & Hin & Hid & Hsy & Hrc).
  exists r'.
  assert (In r' (select_unsynced (-1) (run (map IncrementRetry idss) st)))
    as Hsel.
  { unfold select_unsynced, sql_limit. simpl.
    apply (Permutation_in _ (Permutation_sym (sort_rows_perm _))).
    apply list_elem_of_In, list_elem_of_filter.
    split; [|apply list_elem_of_In, Hin].
    apply unsynced_spec. split; [congruence|lia]. }
  repeat split; auto.
  rewrite get_unsynced_batch_eq. simpl. apply in_map. exact Hsel.
Qed.

(** X10, witness: row 2 of the three fixes after four failed rounds. *)
Lemma below_retry_limit_still_claimed_witness :
  exists r',
    In r' (select_unsynced (-1)
             (run (map IncrementRetry [[2]; [1; 2]; [2; 2]; [2; 3]])
                three_fixes))
    /\ rowid r' = 2 /\ retry_count r' = 4.
Proof.
  destruct (below_retry_limit_still_claimed three_fixes
              (inserted_row sample_conversions "2024-01-08 12:00:10" gps_fix 0 2)
              [[2]; [1; 2]; [2; 2]; [2; 3]])
    as (r' & Hsel & Hid & Hrc & _).
  - vm_compute. right. left. reflexivity.
  - reflexivity.
  - repeat (constructor;
            [split; [simpl; auto 10|vm_compute; reflexivity]|]).
    constructor.
  - simpl. lia.
  - exists r'. split; [exact Hsel|]. split; [exact Hid|exact Hrc].
Defined.

(** ** The sweep and the calendar *)

Lemma string_compare_app a : forall b x y,
  String.length a = String.length b ->
  String.compare (a ++ x) (b ++ y)
  = match String.compare a b with
    | Eq => String.compare x y
    | c => c
    end.
Proof.
  induction a as [|c a IH]; intros [|c' b] x y Hlen; simpl in *;
    try discriminate; [reflexivity|].
  destruct (Ascii.compare c c'); [|reflexivity|reflexivity].
  apply IH. congruence.
Qed.

Lemma string_length_app a b :
  String.length (a ++ b) = (String.length a + String.length b)%nat.
Proof. induction a as [|c a IH]; simpl; [reflexivity|]. rewrite IH. reflexivity. Qed.

Lemma pad2_length n : String.length (pad2 n) = 2%nat.
Proof. reflexivity. Qed.

Lemma pad4_length n : String.length (pad4 n) = 4%nat.
Proof. unfold pad4. rewrite string_length_app, !pad2_length. reflexivity. Qed.

Lemma date_text_length dt : String.length (date_text dt) = 10%nat.
Proof.
  unfold date_text.
  rewrite !string_length_app, pad4_length, !pad2_length. reflexivity.
Qed.

Lemma pad2_compare_small :
  forallb (fun a =>
     forallb (fun b =>
        comparison_eqb (String.compare (pad2 a) (pad2 b)) (a ?= b))
       (seqZ 0 100))
    (seqZ 0 100) = true.
Proof. vm_compute. reflexivity. Qed.

Lemma comparison_eqb_eq c1 c2 : comparison_eqb c1 c2 = true -> c1 = c2.
Proof. destruct c1, c2; simpl; congruence. Qed.

Lemma pad2_compare a b :
  0 <= a < 100 -> 0 <= b < 100 ->
  String.compare (pad2 a) (pad2 b) = (a ?= b).
Proof.
  intros Ha Hb. pose proof pad2_compare_small as H.
  rewrite forallb_forall in H.
  assert (In a (seqZ 0 100)) as Hina
    by (apply list_elem_of_In, elem_of_seqZ; lia).
  specialize (H a Hina). rewrite forallb_forall in H.
  apply comparison_eqb_eq, H, list_elem_of_In, elem_of_seqZ. lia.
Qed.

Lemma pad2_mod n : pad2 n = pad2 (n mod 100).
Proof.
  unfold pad2, digit.
  assert ((n / 10) mod 10 = (n mod 100 / 10) mod 10) as ->
    by (Z.div_mod_to_equations; lia).
  assert (n mod 10 = (n mod 100) mod 10) as ->
    by (Z.div_mod_to_equations; lia).
  reflexivity.
Qed.

Lemma pad4_compare a b :
  0 <= a <= 9999 -> 0 <= b <= 9999 ->
  String.compare (pad4 a) (pad4 b) = (a ?= b).
Proof.
  intros Ha Hb. unfold pad4.
  rewrite string_compare_app by reflexivity.
  rewrite (pad2_mod a), (pad2_mod b).
  pose proof (Z.div_mod a 100 ltac:(lia)) as Ea.
  pose proof (Z.div_mod b 100 ltac:(lia)) as Eb.
  pose proof (Z.mod_pos_bound a 100 ltac:(lia)) as Ra.
  pose proof (Z.mod_pos_bound b 100 ltac:(lia)) as Rb.
  assert (0 <= a / 100 < 100) as Qa
    by (split; [apply Z.div_pos; lia|apply Z.div_lt_upper_bound; lia]).
  assert (0 <= b / 100 < 100) as Qb
    by (split; [apply Z.div_pos; lia|apply Z.div_lt_upper_bound; lia]).
  rewrite !pad2_compare by assumption.
  destruct (Z.compare_spec (a / 100) (b / 100)) as [Hq|Hq|Hq].
  - destruct (Z.compare_spec (a mod 100) (b mod 100)) as [Hr|Hr|Hr];
      symmetry; [apply Z.compare_eq_iff|apply Z.compare_lt_iff
                |apply Z.compare_gt_iff]; lia.
  - symmetry. apply Z.compare_lt_iff. lia.
  - symmetry. apply Z.compare_gt_iff. lia.
Qed.

Lemma date_text_compare a b :
  calendar_date a -> calendar_date b ->
  String.leb (date_text a) (date_text b) = date_leb a b.
Proof.
  intros (Hy & Hm & Hd) (Hy' & Hm' & Hd').
  unfold String.leb, date_text, date_leb.
  rewrite string_compare_app by (rewrite !pad4_length; reflexivity).
  rewrite pad4_compare by assumption.
  change (String.compare ("-" ++ pad2 (month a) ++ "-" ++ pad2 (day a))
                         ("-" ++ pad2 (month b) ++ "-" ++ pad2 (day b)))
    with (String.compare (pad2 (month a) ++ "-" ++ pad2 (day a))
                         (pad2 (month b) ++ "-" ++ pad2 (day b))).
  rewrite string_compare_app by reflexivity.
  rewrite pad2_compare by lia.
  change (String.compare ("-" ++ pad2 (day a)) ("-" ++ pad2 (day b)))
    with (String.compare (pad2 (day a)) (pad2 (day b))).
  rewrite pad2_compare by lia.
  destruct (Z.compare_spec (year a) (year b)) as [Ey|Ey|Ey].
  - rewrite Ey, Z.ltb_irrefl, Z.eqb_refl. simpl.
    destruct (Z.compare_spec (month a) (month b)) as [Em|Em|Em].
    + rewrite Em, Z.ltb_irrefl, Z.eqb_refl. simpl.
      destruct (Z.compare_spec (day a) (day b)) as [Ed|Ed|Ed]; symmetry;
        [apply Z.leb_le|apply Z.leb_le|apply Z.leb_gt]; lia.
    + apply Z.ltb_lt in Em. rewrite Em. reflexivity.
    + assert ((month a <? month b) = false) as -> by (apply Z.ltb_ge; lia).
      assert ((month a =? month b) = false) as -> by (apply Z.eqb_neq; lia).
      reflexivity.
  - apply Z.ltb_lt in Ey. rewrite Ey. reflexivity.
  - assert ((year a <? year b) = false) as -> by (apply Z.ltb_ge; lia).
    assert ((year a =? year b) = false) as -> by (apply Z.eqb_neq; lia).
    reflexivity.
Qed.

(** The stored text of a moment sorts below the ISO text of a cutoff
    exactly when its date text does not sort above the cutoff's. *)
Lemma stamp_below_cutoff created cutoff :
  String.ltb (sqlite_timestamp created) (isoformat cutoff)
  = String.leb (date_text created) (date_text cutoff).
Proof.
  unfold String.ltb, String.leb, sqlite_timestamp, isoformat.
  rewrite string_compare_app by (rewrite !date_text_length; reflexivity).
  destruct (String.compare (date_text created) (date_text cutoff));
    reflexivity.
Qed.

Lemma all_from_spec p n : forall z k,
  all_from p n z = true -> z <= k < z + Z.of_nat n -> p k = true.
Proof.
  induction n as [|n IH]; intros z k H Hk; [lia|].
  simpl in H. apply andb_true_iff in H. destruct H as [Hz Hrest].
  destruct (Z.eq_dec k z) as [->|Hne]; [exact Hz|].
  apply (IH (z + 1)); [exact Hrest|lia].
Qed.

Lemma month_day_of_doe_range :
  all_from (fun doe =>
     let '(m, d) := month_day_of_doe doe in
     (1 <=? m) && (m <=? 12) && (1 <=? d) && (d <=? 31))
    (Z.to_nat 146097) 0 = true.
Proof. vm_compute. reflexivity. Qed.

Lemma civil_from_days_range z :
  let '(y, m, d) := civil_from_days z in 1 <= m <= 12 /\ 1 <= d <= 31.
Proof.
  unfold civil_from_days.
  set (doe := z + 719468 - (z + 719468) / 146097 * 146097).
  assert (0 <= doe < 146097) as Hdoe
    by (subst doe; Z.div_mod_to_equations; lia).
  pose proof (all_from_spec _ _ 0 doe month_day_of_doe_range) as H.
  cbv beta in H. unfold month_day_of_doe in H.
  rewrite !andb_true_iff, !Z.leb_le in H. 
  assert (0 <= doe < 0 + Z.of_nat (Z.to_nat 146097)) as Hr
    by (rewrite Z2Nat.id; lia).
  specialize (H Hr). tauto.
Qed.

Lemma minus_days_calendar dt days cutoff :
  minus_days dt days = Ok cutoff -> calendar_date cutoff.
Proof.
  unfold minus_days. destruct (_ || _); [discriminate|].
  pose proof (civil_from_days_range
                (days_from_civil (year dt) (month dt) (day dt) - days)) as H.
  destruct (civil_from_days _) as [[y m] d].
  destruct ((y <? 1) || (9999 <? y)) eqn:Hy; [discriminate|].
  intros [= <-]. apply orb_false_iff in Hy. destruct Hy as [Hy1 Hy2].
  apply Z.ltb_ge in Hy1, Hy2. unfold calendar_date. simpl. lia.
Qed.

(** X11: the sweep decides by the calendar day alone.  When the cutoff
    [datetime.now() - timedelta(days)] exists, a synced row stamped by
    CURRENT_TIMESTAMP at the moment [created] is deleted exactly when
    the date of [created] is the date of the cutoff or an earlier one;
    the times of day of the row and of the cutoff play no role. *)
Theorem cleanup_old_data_by_calendar_day (now : datetime) (days : Z)
    (vacuum_ok : bool) (st : DataBuffer) (cutoff created : datetime)
    (r : row) :
  minus_days now days = Ok cutoff ->
  calendar_date created ->
  In r (rows st) -> synced r = true ->
  timestamp r = sqlite_timestamp created ->
  (In r (rows (cleanup_old_data now days vacuum_ok st).2)
   <-> date_leb created cutoff = false).
Proof.
  intros Hc Hcal Hr Hs Hts.
  rewrite (cleanup_old_data_kept now days vacuum_ok st cutoff Hc).
  rewrite <- list_elem_of_In, list_elem_of_filter, list_elem_of_In.
  unfold old_synced. rewrite Hs, Hts, stamp_below_cutoff. simpl.
  rewrite (date_text_compare created cutoff Hcal
             (minus_days_calendar now days cutoff Hc)).
  tauto.
Qed.

(** X11, witness: a fix stamped at noon of 2024-01-08 does not
    survive a cutoff at six in the morning of the same day. *)
Lemma cleanup_old_data_by_calendar_day_witness :
  ~ In (set_synced (inserted_row sample_conversions "2024-01-08 12:00:00" gps_fix 0 1))
       (rows (cleanup_old_data (at_time 2024 1 15 6 0 0) 7 true
                delivered_fix).2).
Proof.
  assert (minus_days (at_time 2024 1 15 6 0 0) 7
          = Ok (at_time 2024 1 8 6 0 0)) as H1 by (vm_compute; reflexivity).
  assert (calendar_date (at_time 2024 1 8 12 0 0)) as H2
    by (unfold calendar_date; simpl; lia).
  assert (In (set_synced (inserted_row sample_conversions "2024-01-08 12:00:00" gps_fix 0 1))
             (rows delivered_fix)) as H3 by (vm_compute; left; reflexivity).
  pose proof (cleanup_old_data_by_calendar_day (at_time 2024 1 15 6 0 0) 7
                true delivered_fix (at_time 2024 1 8 6 0 0)
                (at_time 2024 1 8 12 0 0)
                (set_synced (inserted_row sample_conversions "2024-01-08 12:00:00" gps_fix 0 1))
                H1 H2 H3 eq_refl eq_refl) as [Hfwd _].
  intros Hin. apply Hfwd in Hin. vm_compute in Hin. discriminate.
Defined.

(** * Further properties of the sync worker *)

Lemma sync_worker_turn_conserves cfg t s :
  (map data (sync_queue (sync_worker_turn cfg t s).1)
     ++ batch (sync_worker_turn cfg t s).1)
    ++ delivered [(sync_worker_turn cfg t s).2]
  ≡ₚ map data (sync_queue s) ++ batch s.
Proof.
  unfold sync_worker_turn, delivered.
  destruct s as [q bt ls]; simpl. destruct q as [|it rest]; simpl.
  - destruct (nonempty bt); [destruct (upload_ok t)|]; simpl;
      rewrite ?app_nil_r; reflexivity.
  - assert (map data rest ++ bt ++ [data it]
            ≡ₚ data it :: map data rest ++ bt) as Hperm.
    { rewrite app_assoc. rewrite <- Permutation_cons_append. reflexivity. }
    destruct (_ && _); [destruct (upload_ok t)|]; simpl;
      rewrite ?app_nil_r.
    + exact Hperm.
    + rewrite map_app, map_map. simpl. rewrite map_id. exact Hperm.
    + exact Hperm.
Qed.

Lemma delivered_cons ev evs :
  delivered (ev :: evs) = delivered [ev] ++ delivered evs.
Proof. unfold delivered. simpl. rewrite app_nil_r. reflexivity. Qed.

(** X12: the worker neither loses nor duplicates a location.  After
    any number of turns, whatever the uploads answer, the locations on
    the queue, those in the batch and those delivered by successful
    uploads are together exactly the locations that were on the queue
    and in the batch at the start. *)
Theorem sync_worker_conserves (cfg : config) (ts : list tick)
    (s : sync_state) :
  (map data (sync_queue (sync_worker cfg ts s).1)
     ++ batch (sync_worker cfg ts s).1)
    ++ delivered (sync_worker cfg ts s).2
  ≡ₚ map data (sync_queue s) ++ batch s.
Proof.
  revert s. induction ts as [|t ts IH]; intros s; simpl.
  - rewrite app_nil_r. reflexivity.
  - pose proof (sync_worker_turn_conserves cfg t s) as Hturn.
    destruct (sync_worker_turn cfg t s) as [s1 ev]. simpl in Hturn.
    specialize (IH s1). destruct (sync_worker cfg ts s1) as [s2 evs].
    simpl in *.
    rewrite delivered_cons, <- Hturn, <- IH, <- !app_assoc.
    do 2 apply Permutation_app_head.
    apply Permutation_app_comm.
Qed.

Lemma sync_worker_turn_bound cfg t s :
  Z.of_nat (length (batch s)) < config_get (batch_size cfg) 100 ->
  Z.of_nat (length (batch (sync_worker_turn cfg t s).1))
    < config_get (batch_size cfg) 100
  /\ upload_within (config_get (batch_size cfg) 100)
                   (sync_worker_turn cfg t s).2.
Proof.
  intros Hlt. unfold sync_worker_turn, upload_within.
  destruct s as [q bt ls]; simpl in *. destruct q as [|it rest]; simpl.
  - destruct bt as [|d bt]; simpl in *; [split; [exact Hlt|exact I]|].
    destruct (upload_ok t); simpl; split; lia.
  - rewrite nonempty_app, andb_true_r.
    assert (Z.of_nat (length (bt ++ [data it])) = Z.of_nat (length bt) + 1)
      as Hlen by (rewrite length_app; simpl; lia).
    destruct (config_get (batch_size cfg) 100 <=? _) eqn:Hsize.
    + apply Z.leb_le in Hsize. simpl.
      destruct (upload_ok t); simpl; split; lia.
    + apply Z.leb_gt in Hsize. simpl.
      destruct (_ <=? timedelta_seconds _);
        [destruct (upload_ok t)|]; simpl; split; try lia; exact I.
Qed.

(** X13: the batch stays below [batch_size].  When the batch holds
    fewer than [batch_size] locations, as the empty batch of a starting
    worker does for a [batch_size] of one or more, then after any number
    of turns it still does, whatever the uploads answer, and every
    upload carries between one and [batch_size] locations. *)
Theorem sync_worker_batch_bounded (cfg : config) (ts : list tick)
    (s : sync_state) :
  Z.of_nat (length (batch s)) < config_get (batch_size cfg) 100 ->
  Z.of_nat (length (batch (sync_worker cfg ts s).1))
    < config_get (batch_size cfg) 100
  /\ Forall (upload_within (config_get (batch_size cfg) 100))
            (sync_worker cfg ts s).2.
Proof.
  revert s. induction ts as [|t ts IH]; intros s Hlt; simpl.
  - split; [exact Hlt|constructor].
  - destruct (sync_worker_turn_bound cfg t s Hlt) as [H1 H2].
    destruct (sync_worker_turn cfg t s) as [s1 ev]. simpl in *.
    destruct (IH s1 H1) as [H3 H4].
    destruct (sync_worker cfg ts s1) as [s2 evs]. simpl in *.
    split; [exact H3|constructor; assumption].
Qed.

(** X13, witness: the scenario of 150 queued locations. *)
Lemma sync_worker_batch_bounded_witness :
  Z.of_nat (length (batch (sync_worker cfg_100_30 scenario_ticks
                             (queued 150)).1)) < 100
  /\ Forall (upload_within 100)
            (sync_worker cfg_100_30 scenario_ticks (queued 150)).2.
Proof.
  apply (sync_worker_batch_bounded cfg_100_30 scenario_ticks (queued 150)).
  vm_compute. reflexivity.
Defined.

(** X14: the interval test looks at the seconds within the day only.
    When the time since the last successful upload is any whole number
    of days plus less than [sync_interval] seconds, a turn that takes an
    item and leaves the batch below [batch_size] uploads nothing,
    however many days have passed. *)
Theorem sync_worker_interval_wraps (cfg : config) (t : tick)
    (s : sync_state) (it : item) (rest : list item) (whole_days us : Z) :
  sync_queue s = it :: rest ->
  now t - last_sync s = whole_days * 86400000000 + us ->
  0 <= us < config_get (sync_interval cfg) 30 * 1000000 ->
  us < 86400000000 ->
  Z.of_nat (length (batch s)) + 1 < config_get (batch_size cfg) 100 ->
  sync_worker_turn cfg t s
  = ({| sync_queue := rest;
        batch := batch s ++ [data it];
        last_sync := last_sync s |}, None).
Proof.
  intros Hq Hel Hus Hday Hsize. unfold sync_worker_turn. rewrite Hq.
  assert ((config_get (batch_size cfg) 100
             <=? Z.of_nat (length (batch s ++ [data it]))) = false) as ->.
  { apply Z.leb_gt. rewrite length_app. simpl. lia. }
  assert ((config_get (sync_interval cfg) 30
             <=? timedelta_seconds (now t - last_sync s)) = false) as ->.
  { apply Z.leb_gt. rewrite Hel. unfold timedelta_seconds.
    Z.div_mod_to_equations. lia. }
  reflexivity.
Qed.

(** X14, witness: three days and ten seconds after the last upload. *)
Lemma sync_worker_interval_wraps_witness :
  (sync_worker_turn cfg_100_30
     {| now := 3 * 86400000000 + 10000000; upload_ok := true;
        now_after := 3 * 86400000000 + 10005000;
        utcnow_text := "2024-01-11T12:00:10" |}
     (queued 1)).2 = None.
Proof.
  rewrite (sync_worker_interval_wraps cfg_100_30 _ (queued 1)
             {| item_timestamp := "2024-01-08T12:00:00";
                data := gps_fix; attempts := 0 |} [] 3 10000000).
  - reflexivity.
  - reflexivity.
  - reflexivity.
  - simpl. lia.
  - lia.
  - simpl. lia.
Defined.

(** * Properties of batch_upload *)

Lemma replace_dot_no_dot s : has_dot (replace_dot s) = false.
Proof.
  induction s as [|c s IH]; simpl; [reflexivity|]. rewrite IH.
  destruct (Ascii.eqb c ".") eqn:E; [reflexivity|].
  rewrite E. reflexivity.
Qed.

Lemma history_key_no_dot utcnow location k :
  history_key utcnow location = Some k -> has_dot k = false.
Proof.
  unfold history_key. destruct (location !! "timestamp") as [[]|];
    intros [= <-]; apply replace_dot_no_dot.
Qed.

(** What the loop leaves under each key: the last location of the
    list with that key, or what was there when no location has it. *)
Lemma fill_batch_data_spec utcnow locations : forall i acc bd,
  fill_batch_data utcnow i locations acc = Some bd ->
  (forall j l, locations !! j = Some l ->
     exists k, history_key (utcnow (i + j)%nat) l = Some k
       /\ ((forall j' l', (j < j')%nat -> locations !! j' = Some l' ->
              history_key (utcnow (i + j')%nat) l' <> Some k) ->
           bd !! k = Some l))
  /\ (forall k, (forall j l, locations !! j = Some l ->
                   history_key (utcnow (i + j)%nat) l <> Some k) ->
                bd !! k = acc !! k).
Proof.
  induction locations as [|l0 ls IH]; intros i acc bd H; simpl in H.
  - injection H as <-. split; [intros j l Hj; discriminate|reflexivity].
  - destruct (history_key (utcnow i) l0) as [k0|] eqn:Hk0; [|discriminate].
    destruct (IH (S i) _ _ H) as [IHa IHb]. split.
    + intros [|j] l Hj; simpl in Hj.
      * injection Hj as <-. exists k0. rewrite Nat.add_0_r.
        split; [exact Hk0|]. intros Hlater.
        rewrite IHb; [apply lookup_insert_eq|].
        intros j l Hj. replace (S i + j)%nat with (i + S j)%nat by lia.
        apply (Hlater (S j) l); [lia|exact Hj].
      * destruct (IHa j l Hj) as (k & Hk & Hlast).
        replace (S i + j)%nat with (i + S j)%nat in Hk by lia.
        exists k. split; [exact Hk|]. intros Hlater. apply Hlast.
        intros j' l' Hlt Hj'.
        replace (S i + j')%nat with (i + S j')%nat by lia.
        apply (Hlater (S j') l'); [lia|exact Hj'].
    + intros k Hnone. rewrite IHb.
      * rewrite lookup_insert_ne; [reflexivity|].
        intros ->. apply (Hnone 0%nat l0); [reflexivity|].
        rewrite Nat.add_0_r. exact Hk0.
      * intros j l Hj. replace (S i + j)%nat with (i + S j)%nat by lia.
        apply (Hnone (S j) l). exact Hj.
Qed.

Lemma batch_upload_true compression utcnow update_ok locations h h' :
  batch_upload compression utcnow update_ok locations h = (true, h') ->
  exists bd, fill_batch_data utcnow 0 locations ∅ = Some bd
             /\ h' = bd ∪ h.
Proof.
  unfold batch_upload. destruct (_ && _); [discriminate|].
  destruct (fill_batch_data utcnow 0 locations ∅) as [bd|]; [|discriminate].
  destruct update_ok; [|discriminate].
  intros [= <-]. eauto.
Qed.

(** X15: what a successful [batch_upload] writes.  Every location is
    written under its timestamp with each [.] replaced by [_], or under
    the clock text when it has no timestamp; the key never contains a
    [.]; the location is what the history holds under that key unless a
    later location of the batch has the same key, in which case the
    later one replaces it; and keys of no location of the batch keep
    what the history held. *)
Theorem batch_upload_writes (compression : option bool)
    (utcnow : nat -> string) (update_ok : bool) (locations : list dict)
    (h h' : history) :
  batch_upload compression utcnow update_ok locations h = (true, h') ->
  (forall j l, locations !! j = Some l ->
     exists k, history_key (utcnow j) l = Some k
       /\ has_dot k = false
       /\ ((forall j' l', (j < j')%nat -> locations !! j' = Some l' ->
              history_key (utcnow j') l' <> Some k) ->
           h' !! k = Some l))
  /\ (forall k, (forall j l, locations !! j = Some l ->
                   history_key (utcnow j) l <> Some k) ->
                h' !! k = h !! k).
Proof.
  intros H. apply batch_upload_true in H. destruct H as (bd & Hbd & ->).
  destruct (fill_batch_data_spec utcnow locations 0 ∅ bd Hbd) as [Ha Hb].
  split.
  - intros j l Hj. destruct (Ha j l Hj) as (k & Hk & Hlast). simpl in Hk.
    exists k. split; [exact Hk|].
    split; [eapply history_key_no_dot; exact Hk|].
    intros Hlater. apply lookup_union_Some_l. apply Hlast. exact Hlater.
  - intros k Hnone. rewrite lookup_union_r; [reflexivity|].
    rewrite (Hb k Hnone). apply lookup_empty.
Qed.

(** X15, witness: two fixes with the same timestamp in one batch; the
    history keeps one entry, the second fix. *)
Lemma batch_upload_writes_witness :
  (batch_upload None (fun _ => "2024-01-08T12:00:01.5") true
     [gps_fix; fix_with_extra] ∅).2
    !! "2024-01-08T12:00:00_250000"
  = Some fix_with_extra.
Proof.
  destruct (batch_upload_writes None (fun _ => "2024-01-08T12:00:01.5") true
              [gps_fix; fix_with_extra] ∅
              (batch_upload None (fun _ => "2024-01-08T12:00:01.5") true
                 [gps_fix; fix_with_extra] ∅).2) as [Ha _].
  - vm_compute. reflexivity.
  - destruct (Ha 1%nat fix_with_extra eq_refl) as (k & Hk & _ & Hlast).
    assert (k = "2024-01-08T12:00:00_250000") as ->
      by (vm_compute in Hk; congruence).
    apply Hlast. intros [|[|j']] l' Hlt Hj'; try lia. destruct j'; discriminate.
Defined.

Lemma fill_batch_data_stamped utcnow utcnow' locations : forall i i' acc,
  Forall stamped locations ->
  fill_batch_data utcnow i locations acc
  = fill_batch_data utcnow' i' locations acc.
Proof.
  induction locations as [|l ls IH]; intros i i' acc Hall; [reflexivity|].
  apply Forall_cons in Hall. destruct Hall as [[s Hs] Hall]. simpl.
  unfold history_key. rewrite Hs. apply IH. exact Hall.
Qed.

(** X16: uploading a batch again changes nothing.  When every location
    of a batch carries its timestamp and the upload has succeeded, a
    second successful upload of the same batch, at whatever time, leaves
    the history exactly as the first left it. *)
Theorem batch_upload_again (compression : option bool)
    (utcnow utcnow' : nat -> string) (locations : list dict)
    (h h' : history) :
  Forall stamped locations ->
  batch_upload compression utcnow true locations h = (true, h') ->
  batch_upload compression utcnow' true locations h' = (true, h').
Proof.
  intros Hall H. pose proof H as H0. apply batch_upload_true in H0.
  destruct H0 as (bd & Hbd & ->).
  unfold batch_upload in *. destruct (_ && _); [discriminate|].
  rewrite (fill_batch_data_stamped utcnow' utcnow locations 0 0 ∅ Hall), Hbd.
  f_equal. rewrite map_union_assoc, map_union_idemp. reflexivity.
Qed.

(** X16, witness: the sample fix uploaded twice. *)
Lemma batch_upload_again_witness :
  batch_upload None (fun _ => "2024-01-08T12:05:00") true [gps_fix]
    (batch_upload None (fun _ => "2024-01-08T12:00:01") true [gps_fix] ∅).2
  = (true,
     (batch_upload None (fun _ => "2024-01-08T12:00:01") true [gps_fix] ∅).2).
Proof.
  apply (batch_upload_again None (fun _ => "2024-01-08T12:00:01")
           (fun _ => "2024-01-08T12:05:00") [gps_fix] ∅).
  - constructor; [|constructor]. eexists. vm_compute. reflexivity.
  - vm_compute. reflexivity.
Defined.

(** * Further properties of the worker and the tracker *)

Lemma sync_worker_drains cfg ts : forall s,
  Forall (fun t => upload_ok t = true) ts ->
  length ts = length (sync_queue s) ->
  sync_queue (sync_worker cfg ts s).1 = []
  /\ delivered (sync_worker cfg ts s).2 ++ batch (sync_worker cfg ts s).1
     = batch s ++ map data (sync_queue s).
Proof.
  induction ts as [|t ts IH]; intros s Hok Hlen.
  - simpl in *. destruct (sync_queue s); [|discriminate].
    split; [reflexivity|]. rewrite app_nil_r. reflexivity.
  - apply Forall_cons in Hok. destruct Hok as [Ht Hok].
    destruct s as [q bt ls]. simpl in Hlen.
    destruct q as [|it rest]; [discriminate|].
    injection Hlen as Hlen. simpl.
    unfold sync_worker_turn. simpl. rewrite Ht.
    destruct (_ && _).
    + specialize (IH {| sync_queue := rest; batch := [];
                        last_sync := now_after t |} Hok Hlen).
      destruct (sync_worker cfg ts _) as [s2 evs]. simpl in *.
      destruct IH as [IH1 IH2]. split; [exact IH1|].
      rewrite delivered_cons. unfold delivered at 1. simpl.
      rewrite app_nil_r, <- app_assoc, IH2, <- app_assoc. reflexivity.
    + specialize (IH {| sync_queue := rest; batch := bt ++ [data it];
                        last_sync := ls |} Hok Hlen).
      destruct (sync_worker cfg ts _) as [s2 evs]. simpl in *.
      destruct IH as [IH1 IH2]. split; [exact IH1|].
      rewrite delivered_cons. unfold delivered at 1. simpl.
      rewrite IH2, <- app_assoc. reflexivity.
Qed.

(** X17: when the uploads succeed, everything queued is delivered,
    in order.  A worker that takes the items of its queue one per turn
    and then meets one empty poll, every upload succeeding, ends with
    an empty queue and an empty batch, and the successful uploads carry
    the locations of the batch and of the queue in the order in which
    they were queued, each once. *)
Theorem sync_worker_delivers_in_order (cfg : config) (ts : list tick)
    (t_idle : tick) (s : sync_state) :
  Forall (fun t => upload_ok t = true) (ts ++ [t_idle]) ->
  length ts = length (sync_queue s) ->
  sync_queue (sync_worker cfg (ts ++ [t_idle]) s).1 = []
  /\ batch (sync_worker cfg (ts ++ [t_idle]) s).1 = []
  /\ delivered (sync_worker cfg (ts ++ [t_idle]) s).2
     = batch s ++ map data (sync_queue s).
Proof.
  intros Hok Hlen. apply Forall_app in Hok. destruct Hok as [Hok Hidle].
  apply Forall_cons in Hidle. destruct Hidle as [Hidle _].
  assert (forall ts1 ts2 s0,
            sync_worker cfg (ts1 ++ ts2) s0
            = let r1 := sync_worker cfg ts1 s0 in
              let r2 := sync_worker cfg ts2 r1.1 in
              (r2.1, r1.2 ++ r2.2)) as Happ.
  { induction ts1 as [|t1 ts1 IH1]; intros ts2 s0; simpl.
    - destruct (sync_worker cfg ts2 s0); reflexivity.
    - destruct (sync_worker_turn cfg t1 s0) as [s1 ev].
      rewrite IH1. simpl.
      destruct (sync_worker cfg ts1 s1) as [s2 evs]. simpl.
      destruct (sync_worker cfg ts2 s2); reflexivity. }
  rewrite Happ. simpl.
  destruct (sync_worker_drains cfg ts s Hok Hlen) as [Hq Hd].
  destruct (sync_worker cfg ts s) as [s1 evs]. simpl in *.
  unfold sync_worker_turn. rewrite Hq, Hidle.
  assert (forall evs1 evs2, delivered (evs1 ++ evs2)
                            = delivered evs1 ++ delivered evs2) as Hdapp.
  { intros evs1 evs2. unfold delivered. rewrite map_app, concat_app.
    reflexivity. }
  destruct (batch s1) as [|d bt] eqn:Hb; simpl.
  - rewrite Hq, Hb. repeat split; try reflexivity.
    rewrite Hdapp. unfold delivered at 2. simpl.
    rewrite !app_nil_r in *. exact Hd.
  - repeat split; try reflexivity.
    rewrite Hdapp. unfold delivered at 2. simpl. rewrite app_nil_r.
    exact Hd.
Qed.

(** X17, witness: three queued locations, three turns and an empty
    poll. *)
Lemma sync_worker_delivers_in_order_witness :
  delivered (sync_worker cfg_100_30
               (map busy_tick (List.seq 1 3) ++ [idle_tick]) (queued 3)).2
  = [gps_fix; gps_fix; gps_fix].
Proof.
  destruct (sync_worker_delivers_in_order cfg_100_30
              (map busy_tick (List.seq 1 3)) idle_tick (queued 3))
    as (_ & _ & H).
  - repeat constructor.
  - reflexivity.
  - rewrite H. reflexivity.
Defined.

(** X18: the tracker hands every fix to both paths, stamped with its
    own device id.  [handle_gps_update] puts the location, with
    [device_id] set to the tracker's id whatever id it carried, at the
    end of the sync queue with zero attempts, whether or not the buffer
    accepts it.  When the buffer accepts it, the new row has in its
    [device_id] column what a TEXT column stores for that id (a text as
    it is, an integer as its decimal text) and, since [device_id] is
    one of the extra attributes, the id itself in its blob, which is
    therefore never empty; the dictionary read back reports the id of
    the blob.  When the buffer refuses it, as it does for an id that is
    None or a NaN, the buffer is unchanged. *)
Theorem handle_gps_update_both_paths (dev : value)
    (current_timestamp utcnow : string) (location : dict) (w : world) :
  let stamped_location := <["device_id" := dev]> location in
  let w' := handle_gps_update dev current_timestamp utcnow location w in
  sync_queue (sync w')
    = sync_queue (sync w)
      ++ [{| item_timestamp := utcnow; data := stamped_location;
             attempts := 0 |}]
  /\ batch (sync w') = batch (sync w)
  /\ last_sync (sync w') = last_sync (sync w)
  /\ (if (insert_location current_timestamp stamped_location 0 (buffer w)).1
      then exists r extra,
             rows (buffer w') = rows (buffer w) ++ [r]
             /\ rowid r = seq (buffer w) + 1
             /\ device_id r = stored_text (conversions (buffer w)) dev
             /\ (forall s, dev = VStr s -> device_id r = VStr s)
             /\ (forall n, dev = VInt n -> device_id r = VStr (text_of_int n))
             /\ is_null dev = false
             /\ compressed_data r = Some (Gz extra)
             /\ extra !! "device_id" = Some dev
             /\ row_to_dict r !! "device_id" = Some dev
      else buffer w' = buffer w).
Proof.
  intros stamped_location w'. subst w'. unfold handle_gps_update.
  cbn [sync buffer queue_data sync_queue batch last_sync].
  repeat split.
  fold stamped_location. rewrite insert_location_eq.
  destruct (insertable stamped_location 0 (buffer w)) eqn:Hins;
    cbn [fst snd rows]; [|reflexivity].
  assert (stamped_location !! "device_id" = Some dev) as Hdev
    by (subst stamped_location; apply lookup_insert_eq).
  destruct (inserted_row_blob (conversions (buffer w)) current_timestamp
              stamped_location 0 (seq (buffer w) + 1) "device_id" dev Hdev)
    as [Hblob Hx].
  { simpl. intuition discriminate. }
  assert (device_id (inserted_row (conversions (buffer w)) current_timestamp
                       stamped_location 0 (seq (buffer w) + 1))
          = stored_text (conversions (buffer w)) dev) as Hcol.
  { cbn [inserted_row device_id]. unfold get. rewrite Hdev. reflexivity. }
  apply insertable_true in Hins.
  destruct Hins as (lat & lon & _ & _ & _ & _ & Hnull).
  unfold get in Hnull. rewrite Hdev in Hnull.
  eexists _, (extra_data stamped_location).
  split; [reflexivity|]. split; [reflexivity|].
  split; [exact Hcol|].
  split; [intros s ->; rewrite Hcol; reflexivity|].
  split; [intros n ->; rewrite Hcol; reflexivity|].
  split; [exact Hnull|].
  split; [exact Hblob|]. split; [exact Hx|].
  apply (row_to_dict_extra _ _ _ _ Hblob Hx).
Qed.

(** * Properties of the power monitor *)

Lemma read_capacity_range r : 0 <= read_capacity r <= 100.
Proof. unfold read_capacity. destruct (capacity_raw r); lia. Qed.

Lemma check_power_loss_events time_now status m :
  Forall (fun e => e = PowerLost \/ e = PowerRestored)
         (check_power_loss time_now status m).2.
Proof.
  unfold check_power_loss.
  destruct (_ && _), (power_lost_time m); simpl;
    repeat (constructor; auto).
Qed.

Lemma check_battery_levels_shutdown cfg status m delay :
  In (InitiateShutdown delay) (check_battery_levels cfg status m).2 ->
  external_power status = false
  /\ capacity status <= config_get (critical_battery_threshold cfg) 5
  /\ delay = config_get (shutdown_delay cfg) 60
  /\ In BatteryCritical (check_battery_levels cfg status m).2
  /\ critical_battery_warned m = false
  /\ critical_battery_warned (check_battery_levels cfg status m).1 = true.
Proof.
  unfold check_battery_levels.
  destruct (capacity status <=? _) eqn:Hc; simpl.
  - destruct (critical_battery_warned m) eqn:Hw; simpl.
    + destruct (_ && _); simpl; [intros [H|[]]; discriminate|intros []].
    + apply Z.leb_le in Hc.
      destruct (external_power status); simpl.
      * intros [H|[]]. discriminate.
      * intros [H|[H|[]]]; [discriminate|]. injection H as <-. auto 10.
  - destruct (_ && _); simpl; [intros [H|[]]; discriminate|intros []].
Qed.

(** X19: a shutdown is only initiated on battery with a critical
    charge.  Whenever a turn of the monitor calls [initiate_shutdown],
    the status of that turn shows no external power and a capacity,
    between 0 and 100, at or below the critical threshold; the delay is
    the configured one, and the same turn triggers BATTERY_CRITICAL. *)
Theorem shutdown_only_on_critical_battery (cfg : power_config)
    (time_now : Z) (r : bus_reads) (m : monitor) (delay : Z) :
  In (InitiateShutdown delay) (monitor_turn cfg time_now r m).2 ->
  is_external_power r = false
  /\ 0 <= read_capacity r <= 100
  /\ read_capacity r <= config_get (critical_battery_threshold cfg) 5
  /\ delay = config_get (shutdown_delay cfg) 60
  /\ In BatteryCritical (monitor_turn cfg time_now r m).2.
Proof.
  unfold monitor_turn.
  pose proof (check_power_loss_events time_now (get_status time_now r) m) as H1.
  destruct (check_power_loss time_now (get_status time_now r) m) as [m1 ev1].
  pose proof (check_battery_levels_shutdown cfg (get_status time_now r) m1 delay)
    as H2.
  destruct (check_battery_levels cfg (get_status time_now r) m1) as [m2 ev2].
  simpl in *. intros Hin. apply in_app_or in Hin. destruct Hin as [Hin|Hin].
  - rewrite Forall_forall in H1. apply list_elem_of_In, H1 in Hin.
    destruct Hin; discriminate.
  - destruct (H2 Hin) as (He & Hc & Hd & Hb & _).
    split; [exact He|]. split; [apply read_capacity_range|].
    split; [exact Hc|]. split; [exact Hd|].
    apply in_or_app. right. exact Hb.
Qed.

(** X19, witness: a battery at 3 percent on battery power. *)
Lemma shutdown_only_on_critical_battery_witness :
  read_capacity {| voltage_raw := Some 2900; current_raw := Some 4000;
                   capacity_raw := Some 3; charging_raw := Some 0;
                   power_raw := Some 0 |}
  <= config_get (critical_battery_threshold
                   {| low_battery_threshold := None;
                      critical_battery_threshold := None;
                      shutdown_delay := None |}) 5.
Proof.
  apply (shutdown_only_on_critical_battery _ 1000
           {| voltage_raw := Some 2900; current_raw := Some 4000;
              capacity_raw := Some 3; charging_raw := Some 0;
              power_raw := Some 0 |} monitor_start 60).
  vm_compute. auto.
Defined.

(** X20: a bus that fails reads as an empty battery without mains.
    When the reads of the capacity and of the power status raise, the
    monitor sees capacity 0 and no external power; if the critical
    warning is not already set and the critical threshold is not
    negative, the turn triggers BATTERY_CRITICAL and calls
    [initiate_shutdown] with the configured delay. *)
Theorem failed_reads_initiate_shutdown (cfg : power_config) (time_now : Z)
    (r : bus_reads) (m : monitor) :
  capacity_raw r = None -> power_raw r = None ->
  critical_battery_warned m = false ->
  0 <= config_get (critical_battery_threshold cfg) 5 ->
  exists evs,
    (monitor_turn cfg time_now r m).2
    = evs ++ [BatteryCritical;
              InitiateShutdown (config_get (shutdown_delay cfg) 60)]
    /\ Forall (fun e => e = PowerLost \/ e = PowerRestored) evs.
Proof.
  intros Hcap Hpow Hw Hcrit. unfold monitor_turn.
  pose proof (check_power_loss_events time_now (get_status time_now r) m) as H1.
  assert (critical_battery_warned
            (check_power_loss time_now (get_status time_now r) m).1 = false)
    as Hw1.
  { unfold check_power_loss.
    destruct (_ && _), (power_lost_time m); simpl; auto. }
  destruct (check_power_loss time_now (get_status time_now r) m) as [m1 ev1].
  simpl in *. unfold check_battery_levels. simpl.
  unfold read_capacity, is_external_power. rewrite Hcap, Hpow, Hw1. simpl.
  assert ((0 <=? config_get (critical_battery_threshold cfg) 5) = true) as ->
    by (apply Z.leb_le; exact Hcrit).
  simpl. exists ev1. split; [reflexivity|exact H1].
Qed.

(** X20, witness: the first turn of the monitor on a bus that does
    not answer. *)
Lemma failed_reads_initiate_shutdown_witness :
  In (InitiateShutdown 60)
     (monitor_turn {| low_battery_threshold := None;
                      critical_battery_threshold := None;
                      shutdown_delay := None |} 1000 dead_bus
        monitor_start).2.
Proof.
  destruct (failed_reads_initiate_shutdown
              {| low_battery_threshold := None;
                 critical_battery_threshold := None;
                 shutdown_delay := None |} 1000 dead_bus monitor_start)
    as (evs & -> & _); try reflexivity.
  - simpl. lia.
  - apply in_or_app. right. simpl. auto.
Defined.

Lemma discharging_turn_keeps_warning cfg turn m :
  discharging cfg turn -> critical_battery_warned m = true ->
  critical_battery_warned (monitor_turn cfg turn.1 turn.2 m).1 = true
  /\ Forall (fun e => is_shutdown e = false)
            (monitor_turn cfg turn.1 turn.2 m).2.
Proof.
  destruct turn as [time_now r]. intros (Hext & Hvolt & Hch) Hw. simpl in *.
  unfold monitor_turn, check_power_loss, check_battery_levels, reset_warnings.
  simpl. rewrite Hext.
  assert ((0 <? read_voltage r) = true) as -> by (apply Z.ltb_lt; exact Hvolt).
  assert ((is_charging r
           && (config_get (low_battery_threshold cfg) 20 <? read_capacity r))
          = false) as Hreset.
  { destruct Hch as [-> | Hle]; [reflexivity|].
    apply andb_false_iff. right. apply Z.ltb_ge. exact Hle. }
  simpl. destruct (power_lost_time m); simpl; rewrite Hw, andb_false_r;
    destruct (_ && negb (low_battery_warned m)); simpl; rewrite Hreset;
    simpl; split; auto; repeat constructor.
Qed.

(** X21: a battery that went critical on external power is not shut
    down when that power fails, as long as the voltage reads above
    zero.  When the first turn of the monitor finds external power and
    a capacity at or below the critical threshold without charge above
    the low threshold, it triggers BATTERY_CRITICAL without a shutdown;
    and in the turns that follow, as long as every turn finds no
    external power, a voltage above zero and no charge above the low
    threshold, [initiate_shutdown] is never called, however low the
    capacity falls.  The voltage matters: once the loss of power has
    been noted, a turn on battery whose voltage reads zero, as after a
    failed read, counts as power restored, forgets the warning, and
    with a critical capacity calls [initiate_shutdown]. *)
Theorem critical_on_mains_never_shuts_down (cfg : power_config)
    (time0 : Z) (r0 : bus_reads) (turns : list (Z * bus_reads)) :
  is_external_power r0 = true ->
  read_capacity r0 <= config_get (critical_battery_threshold cfg) 5 ->
  (is_charging r0 = false
   \/ read_capacity r0 <= config_get (low_battery_threshold cfg) 20) ->
  Forall (fun turn =>
            is_external_power turn.2 = false
            /\ 0 < read_voltage turn.2
            /\ (is_charging turn.2 = false
                \/ read_capacity turn.2
                   <= config_get (low_battery_threshold cfg) 20)) turns ->
  (In BatteryCritical
      (monitor_power cfg ((time0, r0) :: turns) monitor_start).2
   /\ Forall (fun e => is_shutdown e = false)
             (monitor_power cfg ((time0, r0) :: turns) monitor_start).2)
  /\ (forall m time_now r,
        power_lost m = true ->
        is_external_power r = false -> read_voltage r = 0 ->
        read_capacity r <= config_get (critical_battery_threshold cfg) 5 ->
        (monitor_turn cfg time_now r m).2
        = [PowerRestored; BatteryCritical;
           InitiateShutdown (config_get (shutdown_delay cfg) 60)]).
Proof.
  intros Hext Hcap Hch Hturns.
  split.
  2:{ intros m time_now r Hlost Hnoext Hvolt Hcrit.
      unfold monitor_turn, check_power_loss, check_battery_levels, get_status.
      cbn [voltage external_power capacity charging].
      rewrite Hnoext, Hvolt. cbn [negb andb Z.ltb Z.compare].
      unfold power_lost in Hlost.
      destruct (power_lost_time m); [|discriminate].
      cbn [critical_battery_warned negb].
      assert ((read_capacity r <=? config_get (critical_battery_threshold cfg) 5)
              = true) as -> by (apply Z.leb_le; exact Hcrit).
      reflexivity. }
  change (Forall (discharging cfg) turns) in Hturns.
  assert ((monitor_turn cfg time0 r0 monitor_start).2 = [BatteryCritical]
          /\ critical_battery_warned (monitor_turn cfg time0 r0 monitor_start).1
             = true) as [Hev Hw].
  { unfold monitor_turn, check_power_loss, check_battery_levels,
      reset_warnings. simpl. rewrite Hext. simpl.
    assert ((read_capacity r0 <=? config_get (critical_battery_threshold cfg) 5)
            = true) as -> by (apply Z.leb_le; exact Hcap).
    simpl.
    assert ((is_charging r0
             && (config_get (low_battery_threshold cfg) 20 <? read_capacity r0))
            = false) as ->.
    { destruct Hch as [-> | Hle]; [reflexivity|].
      apply andb_false_iff. right. apply Z.ltb_ge. exact Hle. }
    split; reflexivity. }
  simpl. destruct (monitor_turn cfg time0 r0 monitor_start) as [m1 ev1].
  simpl in *. subst ev1.
  assert (forall m, critical_battery_warned m = true ->
            Forall (fun e => is_shutdown e = false)
                   (monitor_power cfg turns m).2) as Hrun.
  { clear Hw. induction Hturns as [|turn turns Hturn Hrest IH]; intros m Hm.
    - constructor.
    - destruct (discharging_turn_keeps_warning cfg turn m Hturn Hm)
        as [Hw' Hno].
      destruct turn as [tn r]. simpl in *.
      destruct (monitor_turn cfg tn r m) as [m' ev]. simpl in *.
      specialize (IH m' Hw').
      destruct (monitor_power cfg turns m') as [m'' evs]. simpl in *.
      apply Forall_app. split; assumption. }
  specialize (Hrun m1 Hw).
  destruct (monitor_power cfg turns m1) as [m2 evs]. simpl in *.
  split; [left; reflexivity|]. constructor; [reflexivity|exact Hrun].
Qed.

(** X21, witness: mains with the battery at 4 percent, then three
    turns on battery down to 1 percent. *)
Lemma critical_on_mains_never_shuts_down_witness :
  Forall (fun e => is_shutdown e = false)
    (monitor_power
       {| low_battery_threshold := None; critical_battery_threshold := None;
          shutdown_delay := None |}
       [(0, {| voltage_raw := Some 3300; current_raw := Some 0;
               capacity_raw := Some 4; charging_raw := Some 0;
               power_raw := Some 2 |});
        (10, {| voltage_raw := Some 3200; current_raw := Some 5000;
                capacity_raw := Some 3; charging_raw := Some 0;
                power_raw := Some 0 |});
        (20, {| voltage_raw := Some 3100; current_raw := Some 5000;
                capacity_raw := Some 2; charging_raw := Some 0;
                power_raw := Some 0 |});
        (30, {| voltage_raw := Some 3000; current_raw := Some 5000;
                capacity_raw := Some 1; charging_raw := Some 0;
                power_raw := Some 0 |})]
       monitor_start).2.
Proof.
  apply critical_on_mains_never_shuts_down.
  - reflexivity.
  - vm_compute. discriminate.
  - left. reflexivity.
  - repeat (apply Forall_cons; split;
            [split; [reflexivity|split; [reflexivity|left; reflexivity]]|]).
    constructor.
Defined.

Lemma alternating_app_quiet evs : forall lost rest,
  Forall (fun e => e <> PowerLost /\ e <> PowerRestored) evs ->
  alternating lost rest -> alternating lost (evs ++ rest).
Proof.
  induction evs as [|e evs IH]; intros lost rest Hq Hrest; [exact Hrest|].
  apply Forall_cons in Hq. destruct Hq as [[H1 H2] Hq].
  destruct e; simpl; try congruence; apply IH; assumption.
Qed.

Lemma check_battery_levels_quiet cfg status m :
  Forall (fun e => e <> PowerLost /\ e <> PowerRestored)
         (check_battery_levels cfg status m).2
  /\ power_lost_time (check_battery_levels cfg status m).1
     = power_lost_time m.
Proof.
  unfold check_battery_levels.
  destruct (_ && negb (critical_battery_warned m)); simpl.
  - split; [|reflexivity].
    destruct (negb (external_power status));
      repeat (apply Forall_cons; split; [split; discriminate|]);
      apply Forall_nil_2.
  - destruct (_ && _); simpl; (split; [|reflexivity]);
      repeat (apply Forall_cons; split; [split; discriminate|]);
      apply Forall_nil_2.
Qed.

Lemma monitor_turn_alternating cfg time_now r m rest :
  alternating (power_lost (monitor_turn cfg time_now r m).1) rest ->
  alternating (power_lost m) ((monitor_turn cfg time_now r m).2 ++ rest).
Proof.
  unfold monitor_turn.
  assert (forall rest',
            alternating
              (power_lost (check_power_loss time_now (get_status time_now r) m).1)
              rest' ->
            alternating (power_lost m)
              ((check_power_loss time_now (get_status time_now r) m).2 ++ rest'))
    as H1.
  { intros rest'. unfold check_power_loss, power_lost.
    destruct (_ && _), (power_lost_time m) eqn:E; simpl; rewrite ?E;
      tauto. }
  destruct (check_power_loss time_now (get_status time_now r) m) as [m1 ev1].
  destruct (check_battery_levels_quiet cfg (get_status time_now r) m1)
    as [Hq Hpl].
  destruct (check_battery_levels cfg (get_status time_now r) m1) as [m2 ev2].
  simpl in *. intros Hrest. rewrite <- app_assoc. apply H1.
  apply alternating_app_quiet; [exact Hq|].
  assert (power_lost (reset_warnings cfg (get_status time_now r) m2)
          = power_lost m1) as <-; [|exact Hrest].
  unfold reset_warnings, power_lost.
  destruct (_ && _); simpl; rewrite Hpl; reflexivity.
Qed.

(** X22: power-loss and power-restored events alternate.  In any run
    of the monitor from its start, the POWER_LOST and POWER_RESTORED
    events come in turns, beginning with POWER_LOST: no loss is reported
    twice without a restoration between, and no restoration without a
    loss before it. *)
Theorem power_events_alternate (cfg : power_config)
    (turns : list (Z * bus_reads)) :
  alternating false (monitor_power cfg turns monitor_start).2.
Proof.
  change false with (power_lost monitor_start).
  generalize monitor_start. induction turns as [|[tn r] turns IH]; intros m.
  - exact I.
  - simpl. pose proof (monitor_turn_alternating cfg tn r m) as Hturn.
    destruct (monitor_turn cfg tn r m) as [m' ev]. simpl in *.
    specialize (IH m').
    destruct (monitor_power cfg turns m') as [m'' evs]. simpl in *.
    apply Hturn. exact IH.
Qed.

(** * Properties of the tracker as a whole *)

Lemma tracker_step_unsynced dev cfg w o :
  Forall (fun r => synced r = false) (rows (buffer w)) ->
  Forall (fun r => synced r = false) (rows (buffer (tracker_step dev cfg w o)))
  /\ rows (buffer w) `prefix_of` rows (buffer (tracker_step dev cfg w o)).
Proof.
  intros Hun. destruct o; simpl.
  - rewrite insert_location_eq. destruct (insertable _ 0 (buffer w)); simpl.
    + split; [|apply prefix_app_r; reflexivity].
      apply Forall_app. split; [exact Hun|]. repeat constructor.
    + split; [exact Hun|reflexivity].
  - unfold worker_turn. destruct (sync_worker_turn cfg t (sync w)). simpl.
    split; [exact Hun|reflexivity].
  - assert (forall cutoff,
              filter (fun r => old_synced cutoff r = false) (rows (buffer w))
              = rows (buffer w)) as Hkeep.
    { intros cutoff. induction Hun as [|r l Hr Hl IH]; [reflexivity|].
      rewrite filter_cons_True, IH; [reflexivity|].
      unfold old_synced. rewrite Hr. reflexivity. }
    destruct (minus_days now0 retention_days) as [e|cutoff] eqn:Hc.
    + unfold cleanup_old_data. rewrite Hc. simpl.
      split; [exact Hun|reflexivity].
    + rewrite (cleanup_old_data_kept _ _ _ _ cutoff Hc), Hkeep.
      split; [exact Hun|reflexivity].
Qed.

(** X23: as the tracker is wired, the buffer only grows.  Nothing in
    the tracker marks a row synced, so from a buffer without synced
    rows, whatever fixes arrive, whatever the worker uploads and however
    often the periodic cleanup runs, no row is ever synced and none is
    ever deleted: the rows the buffer held stay at the head of the
    table. *)
Theorem tracker_buffer_only_grows (dev : value) (cfg : config)
    (ops : list tracker_op) (w : world) :
  Forall (fun r => synced r = false) (rows (buffer w)) ->
  Forall (fun r => synced r = false)
         (rows (buffer (tracker_run dev cfg ops w)))
  /\ rows (buffer w) `prefix_of` rows (buffer (tracker_run dev cfg ops w)).
Proof.
  revert w. induction ops as [|o ops IH]; intros w Hun; simpl.
  - split; [exact Hun|reflexivity].
  - destruct (tracker_step_unsynced dev cfg w o Hun) as [H1 H2].
    destruct (IH _ H1) as [H3 H4]. split; [exact H3|].
    etransitivity; eassumption.
Qed.

(** X23, witness: a fix, an upload that succeeds and a sweep a month
    later leave the fix in the buffer. *)
Lemma tracker_buffer_only_grows_witness :
  map rowid
    (rows (buffer
       (tracker_run (VStr "fleet-001") cfg_each
          [GpsUpdate "2024-01-08 12:00:00" "2024-01-08T12:00:00" gps_fix;
           WorkerTurn tick_ok;
           PeriodicCleanup (at_time 2024 2 8 12 0 0) 7 true]
          tracker_start)))
  = [1]
  /\ Forall (fun r => synced r = false)
       (rows (buffer
          (tracker_run (VStr "fleet-001") cfg_each
             [GpsUpdate "2024-01-08 12:00:00" "2024-01-08T12:00:00" gps_fix;
              WorkerTurn tick_ok;
              PeriodicCleanup (at_time 2024 2 8 12 0 0) 7 true]
             tracker_start))).
Proof.
  split; [vm_compute; reflexivity|].
  apply (tracker_buffer_only_grows (VStr "fleet-001") cfg_each _ tracker_start).
  constructor.
Defined.

(** * Properties of ConfigManager.get *)

Lemma split_dot_nonempty s : split_dot s <> [].
Proof.
  destruct s as [|c s]; simpl; [discriminate|].
  destruct (Ascii.eqb c "."); [discriminate|].
  destruct (split_dot s); discriminate.
Qed.

Lemma split_dot_app a : forall b,
  split_dot (a ++ String "." b) = split_dot a ++ split_dot b.
Proof.
  induction a as [|c a IH]; intros b; simpl.
  - reflexivity.
  - rewrite IH. destruct (Ascii.eqb c "."); [reflexivity|].
    pose proof (split_dot_nonempty a) as Hne.
    destruct (split_dot a); [congruence|reflexivity].
Qed.

Lemma descend_app keys1 : forall keys2 v,
  descend (keys1 ++ keys2) v
  = match descend keys1 v with
    | Some v1 => descend keys2 v1
    | None => None
    end.
Proof.
  induction keys1 as [|k keys1 IH]; intros keys2 v; simpl; [reflexivity|].
  destruct v; try reflexivity. apply IH.
Qed.

(** X24: dotted keys compose.  Looking up [a.b] is looking up [b] in
    what the lookup of [a] returns with the default None: a missing
    section, a section that is no dictionary and a None on the way all
    give the default of the whole lookup. *)
Theorem config_get_composes (config : cval) (a b : string) (default : cval) :
  config_manager_get config (a ++ String "." b) default
  = config_manager_get (config_manager_get config a (CLeaf VNone)) b default.
Proof.
  unfold config_manager_get. rewrite split_dot_app, descend_app.
  pose proof (split_dot_nonempty b) as Hb.
  destruct (split_dot b) as [|k keys]; [congruence|].
  destruct (descend (split_dot a) config) as [v|]; [|reflexivity].
  destruct v as [[]| |]; reflexivity.
Qed.
